(** * satrack: trajectory sampling, publication and clock binding

    A shallow embedding of the two revisions of [App.tsx]:

    - the sampled revision (module [Sampled]), where every orbital element
      set is propagated at four hourly instants and the converted positions
      are stored in a sampled position property handed to the renderer;
    - the live revision (module [Live]), where every element set is
      propagated at the current instant on each timer tick.

    Numbers are idealised: a JavaScript [number] is an exact rational or one
    of the three non-finite values, and a Julian date is an exact count of
    seconds. The product of two numbers is the host's and is left
    uninterpreted. The orbital-mechanics and rendering libraries are
    collaborators whose operations are taken as the fields of a class; the
    arguments at which their calls raise are the fields of a second one. *)

From Stdlib Require Import QArith Lqa Lia List String Sorted.
From Stdlib Require Import Qround.
From stdpp Require Import base list.
Import ListNotations.

(* ================================================================== *)
(** * Part I. Definitions *)
(* ================================================================== *)

(** ** JavaScript values *)

Module JS.
Local Open Scope Q_scope.

(** A [number]: a finite value, or NaN, or an infinity. *)
Inductive number : Type :=
| Fin (q : Q)
| NaN
| PosInf
| NegInf.

Definition isFinite (x : number) : bool :=
  match x with Fin _ => true | _ => false end.

(** The result of [typeof]. Only the two tags a propagated position can
    carry are needed. *)
Inductive typeTag : Type := TBoolean | TObject.

Definition typeTag_eqb (a b : typeTag) : bool :=
  match a, b with
  | TBoolean, TBoolean | TObject, TObject => true
  | _, _ => false
  end.
End JS.

(** ** Julian dates *)

Module JulianDate.
Local Open Scope Q_scope.

(** A Julian date, as seconds on a common time line. *)
Definition t : Type := Q.

Definition secondsPerHour : Q := 3600.

(** Modelled from the spec: [JulianDate.addHours] belongs to the rendering
    library; the sample instant is the start plus the index times the
    sample spacing, and the spacing of one hour is 3600 seconds. *)
Definition addHours (julianDate : t) (hours : Q) : t :=
  julianDate + hours * secondsPerHour.
End JulianDate.

(** ** Values exchanged with the propagation library *)

Record EciVec3 : Type := mkEci { x : JS.number; y : JS.number; z : JS.number }.

(** [position] of a propagation result: a vector, or a boolean on failure. *)
Inductive EciOrBoolean : Type :=
| EciBoolean (b : bool)
| EciVector (v : EciVec3).

Record PositionAndVelocity : Type :=
  mkPV { position : EciOrBoolean; velocity : EciOrBoolean }.

Record GeodeticLocation : Type :=
  mkGd { longitude : JS.number; latitude : JS.number; height : JS.number }.

Record TleData : Type :=
  mkTle { name : string; line1 : string; line2 : string }.

(** A vector is finite when its three components are. *)
Definition isFiniteVector (v : EciVec3) : bool :=
  JS.isFinite (x v) && JS.isFinite (y v) && JS.isFinite (z v).

(** ** The collaborators

    Operations of the propagation library, of the rendering library and of
    the host ([Date], the product of numbers) that the application calls
    and does not define. *)

Class Collaborators : Type := {
  JsDate : Type;
  Satrec : Type;
  Cartesian3 : Type;
  (** [a * b] on numbers, as the host computes it. *)
  times : JS.number -> JS.number -> JS.number;
  (** [new Date()]: the [n]-th reading of the host clock. *)
  newDate : nat -> JsDate;
  (** [JulianDate.toDate]. *)
  toDate : JulianDate.t -> JsDate;
  twoline2satrec : string -> string -> Satrec;
  propagate : Satrec -> JsDate -> PositionAndVelocity;
  gstime : JsDate -> JS.number;
  eciToGeodetic : EciVec3 -> JS.number -> GeodeticLocation;
  degreesLong : JS.number -> JS.number;
  degreesLat : JS.number -> JS.number;
  (** [Cartesian3.fromDegrees]. *)
  fromDegrees : JS.number -> JS.number -> JS.number -> Cartesian3
}.

(** ** The guard on a propagated position

    [positionEci && typeof positionEci === "object"], shared by both
    revisions. *)

Definition truthy (p : EciOrBoolean) : bool :=
  match p with
  | EciBoolean b => b
  | EciVector _ => true
  end.

Definition typeof (p : EciOrBoolean) : JS.typeTag :=
  match p with
  | EciBoolean _ => JS.TBoolean
  | EciVector _ => JS.TObject
  end.

Definition positionGuard (positionEci : EciOrBoolean) : bool :=
  truthy positionEci && JS.typeTag_eqb (typeof positionEci) JS.TObject.

(** The vector the guarded branch works on, when the guard lets it in. *)
Definition guarded (positionEci : EciOrBoolean) : option EciVec3 :=
  if positionGuard positionEci then
    match positionEci with
    | EciVector v => Some v
    | EciBoolean _ => None
    end
  else None.

(** ** Effects of a refresh

    What a run of [calculateSatellitePositions] does to the outside: it may
    call the state setter of the component, and it may write to the error
    console. *)

Inductive effect (St : Type) : Type :=
| SetState (s : St)
| ConsoleError (message : string).
Arguments SetState {St} s.
Arguments ConsoleError {St} message.

(** The component state after the effects, in order, from [current]. *)
Fixpoint published {St : Type} (current : St) (effects : list (effect St))
    : St :=
  match effects with
  | [] => current
  | SetState s :: rest => published s rest
  | ConsoleError _ :: rest => published current rest
  end.

Definition consoleErrors {St : Type} (effects : list (effect St))
    : list string :=
  omap (fun e => match e with ConsoleError m => Some m | SetState _ => None end)
       effects.

Definition setStates {St : Type} (effects : list (effect St)) : list St :=
  omap (fun e => match e with SetState s => Some s | ConsoleError _ => None end)
       effects.

(** ** The sampled revision *)

Module Sampled.
Local Open Scope Q_scope.

Section WithCollaborators.
Context {ext : Collaborators}.

(** Modelled from the spec: [SampledPositionProperty] belongs to the
    rendering library; a trajectory is the ordered sequence of its
    (time, position) epochs. *)
Definition SampledPositionProperty : Type :=
  list (JulianDate.t * Cartesian3).

(** Modelled from the spec: [addSample] belongs to the rendering library;
    it appends the epoch to the trajectory. *)
Definition addSample (property : SampledPositionProperty)
    (time : JulianDate.t) (position : Cartesian3)
    : SampledPositionProperty :=
  property ++ [(time, position)].

Record SatelliteEntity : Type :=
  mkEntity { entityName : string; entityPosition : SampledPositionProperty }.

(** The frame conversion of the loop body: geodetic coordinates of the
    inertial vector at the sidereal time, then the renderer's Cartesian
    point at longitude and latitude in degrees and at the height times
    1000. *)
Definition toRenderFrame (positionEci : EciVec3) (gmst : JS.number)
    : Cartesian3 :=
  let positionGd := eciToGeodetic positionEci gmst in
  fromDegrees (degreesLong (longitude positionGd))
              (degreesLat (latitude positionGd))
              (times (height positionGd) (JS.Fin 1000)).

(** The instant of iteration [i]. *)
Definition sampleTime (start : JulianDate.t) (i : nat) : JulianDate.t :=
  JulianDate.addHours start (inject_Z (Z.of_nat i)).

(** What iteration [i] has to add, if anything. *)
Definition sampleAt (satrec : Satrec) (start : JulianDate.t) (i : nat)
    : option (JulianDate.t * Cartesian3) :=
  let time := sampleTime start i in
  let jsDate := toDate time in
  let positionAndVelocity := propagate satrec jsDate in
  let positionEci := position positionAndVelocity in
  match guarded positionEci with
  | Some v =>
      let gmst := gstime jsDate in
      Some (time, toRenderFrame v gmst)
  | None => None
  end.

(** One iteration of the [for] loop. *)
Definition sampleStep (satrec : Satrec) (start : JulianDate.t) (i : nat)
    (positionProperty : SampledPositionProperty)
    : SampledPositionProperty :=
  match sampleAt satrec start i with
  | Some (time, position) => addSample positionProperty time position
  | None => positionProperty
  end.

(** The loop, with [remaining] iterations left from index [i]. *)
Fixpoint sampleLoop (satrec : Satrec) (start : JulianDate.t)
    (remaining i : nat) (positionProperty : SampledPositionProperty)
    : SampledPositionProperty :=
  match remaining with
  | O => positionProperty
  | S remaining' =>
      sampleLoop satrec start remaining' (S i)
                 (sampleStep satrec start i positionProperty)
  end.

(** [for (let i = 0; i < 4; i++)]. *)
Definition sampleCount : nat := 4.

(** The spacing of the samples, in seconds. *)
Definition sampleSpacing : Q := JulianDate.secondsPerHour.

(** The callback of [tleData.map]: the trajectory of one element set. *)
Definition buildTrajectory (start : JulianDate.t) (tle : TleData)
    : SatelliteEntity :=
  let satrec := twoline2satrec (line1 tle) (line2 tle) in
  let positionProperty : SampledPositionProperty := [] in
  mkEntity (name tle)
           (sampleLoop satrec start sampleCount 0 positionProperty).

(** [calculateSatellitePositions]: nothing happens while the element
    sets are undefined; otherwise one entity per element set is built and
    the whole array is handed to the state setter. *)
Definition calculateSatellitePositions (start : JulianDate.t)
    (tleData : option (list TleData))
    : list (effect (list SatelliteEntity)) :=
  match tleData with
  | None => []
  | Some tleData =>
      let entities := map (buildTrajectory start) tleData in
      [SetState entities]
  end.

(** The epoch times of a trajectory. *)
Definition epochTimes (property : SampledPositionProperty)
    : list JulianDate.t :=
  map fst property.

(** At most four epochs, all within three hours from [start]. *)
Definition withinWindow (start : JulianDate.t) (entity : SatelliteEntity)
    : Prop :=
  (length (entityPosition entity) <= 4)%nat
  /\ Forall (fun time => start <= time <= start + 3 * 3600)
            (epochTimes (entityPosition entity)).

End WithCollaborators.
End Sampled.

(** ** The live revision *)

Module Live.

Record SatellitePosition : Type :=
  mkPosition { positionLongitude : JS.number;
               positionLatitude : JS.number;
               altitude : JS.number }.

Record Satellite : Type :=
  mkSatellite { satelliteName : string; satellitePosition : SatellitePosition }.

(** The outside world of one run: how many times the host clock has been
    read, and the effects so far, oldest first. *)
Record World : Type :=
  mkWorld { clockReads : nat; effects : list (effect (list Satellite)) }.

(** Computations that read the clock and emit effects. *)
Definition M (A : Type) : Type := World -> A * World.

Definition ret {A : Type} (a : A) : M A := fun w => (a, w).

Definition bind {A B : Type} (m : M A) (k : A -> M B) : M B :=
  fun w => let (a, w') := m w in k a w'.

Notation "'do' v <- m ; k" := (bind m (fun v => k))
  (at level 10, v name, m at level 100, k at level 200).
Notation "'run' m ; k" := (bind m (fun _ => k))
  (at level 10, m at level 100, k at level 200).

Fixpoint mapM {A B : Type} (f : A -> M B) (l : list A) : M (list B) :=
  match l with
  | [] => ret []
  | a :: rest => do b <- f a; do bs <- mapM f rest; ret (b :: bs)
  end.

Definition emit (e : effect (list Satellite)) : M unit :=
  fun w => (tt, mkWorld (clockReads w) (effects w ++ [e])).

Definition consoleError (message : string) : M unit :=
  emit (ConsoleError message).

Definition setSatellites (satellites : list Satellite) : M unit :=
  emit (SetState satellites).

Section WithCollaborators.
Context {ext : Collaborators}.

(** [new Date()]. *)
Definition now : M JsDate :=
  fun w => (newDate (clockReads w), mkWorld (S (clockReads w)) (effects w)).

(** The geodetic position the guarded branch returns. *)
Definition toSatellitePosition (positionEci : EciVec3) (gmst : JS.number)
    : SatellitePosition :=
  let positionGd := eciToGeodetic positionEci gmst in
  let longitude := degreesLong (longitude positionGd) in
  let latitude := degreesLat (latitude positionGd) in
  let altitude := times (height positionGd) (JS.Fin 1000) in
  mkPosition longitude latitude altitude.

(** The callback of [tleData.map]; [None] is [null]. *)
Definition locate (tle : TleData) : M (option Satellite) :=
  let satrec := twoline2satrec (line1 tle) (line2 tle) in
  do date <- now;
  let positionAndVelocity := propagate satrec date in
  let positionEci := position positionAndVelocity in
  match guarded positionEci with
  | Some v =>
      do date' <- now;
      let gmst := gstime date' in
      ret (Some (mkSatellite (name tle) (toSatellitePosition v gmst)))
  | None =>
      run consoleError "Something is wrong with the data";
      ret None
  end.

(** [.filter(satellite => satellite !== null)]. *)
Definition notNull (satellites : list (option Satellite)) : list Satellite :=
  omap id satellites.

Definition calculateSatellitePositions (tleData : list TleData) : M unit :=
  do located <- mapM locate tleData;
  let updatedSatellites := notNull located in
  setSatellites updatedSatellites.

(** The point the renderer is given for a satellite. *)
Definition entityPosition (satellite : Satellite) : Cartesian3 :=
  let p := satellitePosition satellite in
  fromDegrees (positionLongitude p) (positionLatitude p) (altitude p).

End WithCollaborators.
End Live.

(** ** Continuous position query *)

Module Interp.
Local Open Scope Q_scope.

(** A point of the rendering frame, in exact arithmetic. *)
Record RenderCoordinate : Type := mkPoint { px : Q; py : Q; pz : Q }.

Definition SampleEpoch : Type := (JulianDate.t * RenderCoordinate)%type.

Definition Trajectory : Type := list SampleEpoch.

(** Modelled from the spec: the interpolation is the rendering library's;
    it is linear, in Cartesian space. The point at fraction [w] of the way
    from [a] to [b]. *)
Definition lerp (a b : RenderCoordinate) (w : Q) : RenderCoordinate :=
  mkPoint (px a + w * (px b - px a))
          (py a + w * (py b - py a))
          (pz a + w * (pz b - pz a)).

(** Modelled from the spec: the search for the two bracketing epochs is the
    rendering library's. The query from the epoch [(t0, p0)] on, for a time
    after [t0]: at the time of a later epoch its position, between two
    consecutive epochs their interpolation. After the last epoch there is
    no position: the property is built with the default options of the
    library and no extrapolation is set on it. *)
Fixpoint interpolateFrom (t0 : JulianDate.t) (p0 : RenderCoordinate)
    (later : Trajectory) (t : JulianDate.t) : option RenderCoordinate :=
  match later with
  | [] => None
  | (t1, p1) :: later' =>
      match t ?= t1 with
      | Lt => Some (lerp p0 p1 ((t - t0) / (t1 - t0)))
      | Eq => Some p1
      | Gt => interpolateFrom t1 p1 later' t
      end
  end.

(** Modelled from the spec: the query of a sampled position property
    belongs to the rendering library; within the sampled window it
    interpolates linearly, in Cartesian space, between the two bracketing
    epochs. Outside the window the model departs from the policy of the
    spec: [new SampledPositionProperty()] leaves the extrapolation of the
    library off and the application never sets it, so that before the
    first and after the last epoch there is no position. A trajectory
    without epochs has no position. *)
Definition positionAt (trajectory : Trajectory) (t : JulianDate.t)
    : option RenderCoordinate :=
  match trajectory with
  | [] => None
  | (t0, p0) :: later =>
      match t ?= t0 with
      | Lt => None
      | Eq => Some p0
      | Gt => interpolateFrom t0 p0 later t
      end
  end.

(** Epoch times strictly increase along the trajectory. *)
Definition increasing (trajectory : Trajectory) : Prop :=
  StronglySorted Qlt (map fst trajectory).

(** Equality of points up to the equality of rationals. *)
Definition sameCoordinate (a b : RenderCoordinate) : Prop :=
  px a == px b /\ py a == py b /\ pz a == pz b.

(** [p] lies on the segment from [a] to [b], at a fraction strictly
    between 0 and 1. *)
Definition strictlyBetween (a b p : RenderCoordinate) : Prop :=
  exists w : Q, 0 < w /\ w < 1 /\ sameCoordinate p (lerp a b w).

(** The boundary epochs of a trajectory, when it has epochs. *)
Definition firstEpoch (trajectory : Trajectory) : option SampleEpoch :=
  head trajectory.

Definition lastEpoch (trajectory : Trajectory) : option SampleEpoch :=
  last trajectory.
End Interp.

(** ** The simulation clock *)

Module Clock.
Local Open Scope Q_scope.

Inductive ClockRange : Type := UNBOUNDED | CLAMPED | LOOP_STOP.

(** The clock of the viewer. [lastSystemTime] is the wall-clock reading,
    in seconds, at the latest tick. *)
Record t : Type := mkClock {
  startTime : JulianDate.t;
  stopTime : JulianDate.t;
  currentTime : JulianDate.t;
  clockRange : ClockRange;
  multiplier : Q;
  shouldAnimate : bool;
  lastSystemTime : Q
}.

(** The effect of [App] on the clock of the viewer: start and current time
    are the captured start, the range is unbounded, the multiplier is 1
    and the clock animates. *)
Definition bindClock (start : JulianDate.t) (clock : t) : t :=
  mkClock start (stopTime clock) start UNBOUNDED 1 true
          (lastSystemTime clock).

(** Modelled from the spec: the boundary policies are the rendering
    library's; unbounded lets time run on, clamped holds it within the
    start and the stop, looping wraps it to the start. *)
Definition bounded (clock : t) (time : JulianDate.t) : JulianDate.t :=
  match clockRange clock with
  | UNBOUNDED => time
  | CLAMPED =>
      if Qle_bool time (startTime clock) then startTime clock
      else if Qle_bool (stopTime clock) time then stopTime clock
      else time
  | LOOP_STOP =>
      if Qle_bool time (startTime clock) then startTime clock
      else if Qle_bool (stopTime clock) time then startTime clock
      else time
  end.

(** Modelled from the spec: the tick of the clock belongs to the rendering
    library; simulation time advances by the multiplier times the
    wall-clock time elapsed since the previous tick, whatever the number
    of ticks, subject to the boundary policy. *)
Definition tick (systemTime : Q) (clock : t) : t :=
  let elapsed := systemTime - lastSystemTime clock in
  let time :=
    if shouldAnimate clock
    then bounded clock (currentTime clock + multiplier clock * elapsed)
    else currentTime clock in
  mkClock (startTime clock) (stopTime clock) time (clockRange clock)
          (multiplier clock) (shouldAnimate clock) systemTime.

Definition now (clock : t) : JulianDate.t := currentTime clock.

(** The clock after ticks at the wall-clock readings [systemTimes]. *)
Definition ticks (systemTimes : list Q) (clock : t) : t :=
  fold_left (fun c w => tick w c) systemTimes clock.

(** Wall-clock readings never go back, from [from] on. *)
Fixpoint nondecreasing (from : Q) (systemTimes : list Q) : Prop :=
  match systemTimes with
  | [] => True
  | w :: rest => from <= w /\ nondecreasing w rest
  end.

(** Normal operation: unbounded range, multiplier 1, animating. *)
Definition normalOperation (clock : t) : Prop :=
  clockRange clock = UNBOUNDED
  /\ multiplier clock = 1
  /\ shouldAnimate clock = true.
End Clock.

(** ** The component around the sampled revision *)

Module Component.
Section WithCollaborators.
Context {ext : Collaborators}.

(** The viewer's clock, once the viewer is mounted, and the React state
    [satelliteEntities]. *)
Record App : Type := mkApp {
  viewerClock : option Clock.t;
  satelliteEntities : list Sampled.SatelliteEntity
}.

(** The effect that runs when the element sets change: without a viewer
    it returns at once; otherwise it binds the clock to the captured
    start and recomputes the positions. *)
Definition onTleData (start : JulianDate.t)
    (tleData : option (list TleData)) (app : App) : App :=
  match viewerClock app with
  | None => app
  | Some clock =>
      mkApp (Some (Clock.bindClock start clock))
            (published (satelliteEntities app)
               (Sampled.calculateSatellitePositions start tleData))
  end.

(** A tick of the viewer's clock at the wall-clock reading
    [systemTime]. *)
Definition onTick (systemTime : Q) (app : App) : App :=
  mkApp (option_map (Clock.tick systemTime) (viewerClock app))
        (satelliteEntities app).

Definition onTicks (systemTimes : list Q) (app : App) : App :=
  fold_left (fun a w => onTick w a) systemTimes app.
End WithCollaborators.
End Component.

(** ** The build, step by step, over a store of objects

    The same [calculateSatellitePositions] of the sampled revision, with the
    sampled position properties as objects of a store that [addSample]
    updates in place, and with the entities holding references to them. A
    reader of the component state sees the published entities through the
    store of the moment. *)

Module Machine.
Section WithCollaborators.
Context {ext : Collaborators}.

(** An entity as the array holds it: the name and a reference to the
    sampled position property, which is the index of the object in the
    store. *)
Record EntityRef : Type := mkRef { refName : string; refPosition : nat }.

(** Where the run is. *)
Inductive control : Type :=
| AtGuard
| InMap (pending : list TleData) (entities : list EntityRef)
| InLoop (tleName : string) (satrec : Satrec) (positionProperty : nat)
         (i : nat) (pending : list TleData) (entities : list EntityRef)
| Returned.

Record state : Type := mkState {
  store : list Sampled.SampledPositionProperty;
  satelliteEntities : list EntityRef;
  at_ : control
}.

Definition step (start : JulianDate.t) (tleData : option (list TleData))
    (s : state) : option state :=
  match at_ s with
  | AtGuard =>
      match tleData with
      | None => Some (mkState (store s) (satelliteEntities s) Returned)
      | Some tleData =>
          Some (mkState (store s) (satelliteEntities s) (InMap tleData []))
      end
  | InMap [] entities =>
      Some (mkState (store s) entities Returned)
  | InMap (tle :: pending) entities =>
      let satrec := twoline2satrec (line1 tle) (line2 tle) in
      let positionProperty := length (store s) in
      Some (mkState (store s ++ [[]]) (satelliteEntities s)
              (InLoop (name tle) satrec positionProperty 0 pending
                      entities))
  | InLoop tleName satrec positionProperty i pending entities =>
      if (i <? Sampled.sampleCount)%nat then
        Some (mkState
                (alter (Sampled.sampleStep satrec start i)
                       positionProperty (store s))
                (satelliteEntities s)
                (InLoop tleName satrec positionProperty (S i) pending
                        entities))
      else
        Some (mkState (store s) (satelliteEntities s)
                (InMap pending
                       (entities ++ [mkRef tleName positionProperty])))
  | Returned => None
  end.

Fixpoint run (start : JulianDate.t) (tleData : option (list TleData))
    (fuel : nat) (s : state) : state :=
  match fuel with
  | O => s
  | S fuel' =>
      match step start tleData s with
      | Some s' => run start tleData fuel' s'
      | None => s
      end
  end.

(** What a reader sees: each published entity with the object its
    reference denotes. *)
Definition observe (s : state)
    : list (string * option Sampled.SampledPositionProperty) :=
  map (fun e => (refName e, store s !! refPosition e))
      (satelliteEntities s).

(** The same view of a set of entities given by value. *)
Definition snapshot (entities : list Sampled.SatelliteEntity)
    : list (string * option Sampled.SampledPositionProperty) :=
  map (fun e => (Sampled.entityName e, Some (Sampled.entityPosition e)))
      entities.

(** Every published reference denotes an object of the store. *)
Definition wellFormed (s : state) : Prop :=
  Forall (fun e => (refPosition e < length (store s))%nat)
         (satelliteEntities s).

(** Steps enough for any run over [tleData]. *)
Definition enoughFuel (tleData : option (list TleData)) : nat :=
  match tleData with
  | None => 1
  | Some tleData => 2 + length tleData * (2 + Sampled.sampleCount)
  end.

(** The steps left before the run returns. *)
Definition stepsLeft (tleData : option (list TleData)) (s : state) : nat :=
  match at_ s with
  | AtGuard => enoughFuel tleData
  | InMap pending _ => 1 + length pending * (2 + Sampled.sampleCount)
  | InLoop _ _ _ i pending _ =>
      (Sampled.sampleCount - i) + 2
      + length pending * (2 + Sampled.sampleCount)
  | Returned => 0
  end.

(** The objects of [s0] are still in the store of [s], unchanged. *)
Definition preserved (s0 s : state) : Prop :=
  (length (store s0) <= length (store s))%nat
  /\ forall r : nat,
       (r < length (store s0))%nat -> store s !! r = store s0 !! r.

(** The entities returned so far, one for each element set of [done]:
    each holds the name of its element set and a reference, allocated
    during this run and below [bound], to the finished trajectory. *)
Definition built (start : JulianDate.t) (s0 : state) (bound : nat)
    (objects : list Sampled.SampledPositionProperty)
    (entities : list EntityRef) (done : list TleData) : Prop :=
  Forall2
    (fun e tle =>
       refName e = name tle
       /\ (length (store s0) <= refPosition e < bound)%nat
       /\ objects !! refPosition e
          = Some (Sampled.entityPosition
                    (Sampled.buildTrajectory start tle)))
    entities done.

(** What holds at every point of a run started in [s0]. *)
Definition invariant (start : JulianDate.t)
    (tleData : option (list TleData)) (s0 s : state) : Prop :=
  preserved s0 s
  /\ match at_ s with
     | AtGuard => s = s0
     | InMap pending entities =>
         satelliteEntities s = satelliteEntities s0
         /\ exists done : list TleData,
              tleData = Some (done ++ pending)
              /\ built start s0 (length (store s)) (store s) entities done
     | InLoop tleName satrec positionProperty i pending entities =>
         satelliteEntities s = satelliteEntities s0
         /\ exists (done : list TleData) (tle : TleData),
              tleData = Some (done ++ tle :: pending)
              /\ tleName = name tle
              /\ satrec = twoline2satrec (line1 tle) (line2 tle)
              /\ (i <= Sampled.sampleCount)%nat
              /\ (length (store s0) <= positionProperty)%nat
              /\ length (store s) = S positionProperty
              /\ store s !! positionProperty
                 = Some (Sampled.sampleLoop satrec start i 0 [])
              /\ built start s0 positionProperty (store s) entities done
     | Returned =>
         (tleData = None /\ satelliteEntities s = satelliteEntities s0)
         \/ (exists done : list TleData,
               tleData = Some done
               /\ built start s0 (length (store s)) (store s)
                    (satelliteEntities s) done)
     end.
End WithCollaborators.
End Machine.

(** ** Library calls that raise

    Nothing in either revision catches an exception. The sampled revision
    is given here a second time with the calls of the libraries as calls
    that may raise: an exception leaves the loop, the callback of
    [tleData.map] and [calculateSatellitePositions]. *)

Inductive thrown : Type :=
| DeveloperError (message : string)
| RangeError (message : string)
| TypeError (message : string).

(** The arguments at which the library calls of the sampled revision raise:
    [Some e] where the call raises [e], [None] where it returns. What the
    collaborators give at arguments where the call raises is never used. *)
Class Raises (ext : Collaborators) : Type := {
  twoline2satrecRaises : string -> string -> option thrown;
  toDateRaises : JulianDate.t -> option thrown;
  propagateRaises : Satrec -> JsDate -> option thrown;
  gstimeRaises : JsDate -> option thrown;
  eciToGeodeticRaises : EciVec3 -> JS.number -> option thrown;
  degreesLongRaises : JS.number -> option thrown;
  degreesLatRaises : JS.number -> option thrown;
  fromDegreesRaises : JS.number -> JS.number -> JS.number -> option thrown
}.

(** Libraries none of whose calls ever raises. *)
Definition neverRaises (ext : Collaborators) : Raises ext := {|
  twoline2satrecRaises := fun _ _ => None;
  toDateRaises := fun _ => None;
  propagateRaises := fun _ _ => None;
  gstimeRaises := fun _ => None;
  eciToGeodeticRaises := fun _ _ => None;
  degreesLongRaises := fun _ => None;
  degreesLatRaises := fun _ => None;
  fromDegreesRaises := fun _ _ _ => None
|}.

Module Throwing.
Local Open Scope Q_scope.

(** A value returned, or an exception raised. *)
Definition outcome (A : Type) : Type := (A + thrown)%type.

(** A library call: it raises, or it returns its value. *)
Definition call {A : Type} (raise : option thrown) (value : A) : outcome A :=
  match raise with
  | Some e => inr e
  | None => inl value
  end.

Definition andThen {A B : Type} (m : outcome A) (k : A -> outcome B)
    : outcome B :=
  match m with
  | inl a => k a
  | inr e => inr e
  end.

Notation "'get' v <- m ; k" := (andThen m (fun v => k))
  (at level 10, v name, m at level 100, k at level 200).

(** [array.map(f)] for a callback that may raise: the first exception
    ends it. *)
Fixpoint arrayMap {A B : Type} (f : A -> outcome B) (l : list A)
    : outcome (list B) :=
  match l with
  | [] => inl []
  | a :: rest => get b <- f a; get bs <- arrayMap f rest; inl (b :: bs)
  end.

Section WithCollaborators.
Context {ext : Collaborators} {raises : Raises ext}.

(** The frame conversion of the loop body, call by call, in the order of
    evaluation. *)
Definition toRenderFrame (positionEci : EciVec3) (gmst : JS.number)
    : outcome Cartesian3 :=
  get positionGd <- call (eciToGeodeticRaises positionEci gmst)
                         (eciToGeodetic positionEci gmst);
  get lon <- call (degreesLongRaises (longitude positionGd))
                  (degreesLong (longitude positionGd));
  get lat <- call (degreesLatRaises (latitude positionGd))
                  (degreesLat (latitude positionGd));
  let h := times (height positionGd) (JS.Fin 1000) in
  call (fromDegreesRaises lon lat h) (fromDegrees lon lat h).

(** What iteration [i] has to add, if anything, or what it raises. *)
Definition sampleAt (satrec : Satrec) (start : JulianDate.t) (i : nat)
    : outcome (option (JulianDate.t * Cartesian3)) :=
  let time := Sampled.sampleTime start i in
  get jsDate <- call (toDateRaises time) (toDate time);
  get positionAndVelocity <- call (propagateRaises satrec jsDate)
                                  (propagate satrec jsDate);
  let positionEci := position positionAndVelocity in
  match guarded positionEci with
  | Some v =>
      get gmst <- call (gstimeRaises jsDate) (gstime jsDate);
      get position <- toRenderFrame v gmst;
      inl (Some (time, position))
  | None => inl None
  end.

(** One iteration of the [for] loop. *)
Definition sampleStep (satrec : Satrec) (start : JulianDate.t) (i : nat)
    (positionProperty : Sampled.SampledPositionProperty)
    : outcome Sampled.SampledPositionProperty :=
  get sample <- sampleAt satrec start i;
  match sample with
  | Some (time, position) =>
      inl (Sampled.addSample positionProperty time position)
  | None => inl positionProperty
  end.

(** The loop, with [remaining] iterations left from index [i]. *)
Fixpoint sampleLoop (satrec : Satrec) (start : JulianDate.t)
    (remaining i : nat) (positionProperty : Sampled.SampledPositionProperty)
    : outcome Sampled.SampledPositionProperty :=
  match remaining with
  | O => inl positionProperty
  | S remaining' =>
      get positionProperty' <- sampleStep satrec start i positionProperty;
      sampleLoop satrec start remaining' (S i) positionProperty'
  end.

(** The callback of [tleData.map]. *)
Definition buildTrajectory (start : JulianDate.t) (tle : TleData)
    : outcome Sampled.SatelliteEntity :=
  get satrec <- call (twoline2satrecRaises (line1 tle) (line2 tle))
                     (twoline2satrec (line1 tle) (line2 tle));
  let positionProperty : Sampled.SampledPositionProperty := [] in
  get positionProperty' <-
    sampleLoop satrec start Sampled.sampleCount 0 positionProperty;
  inl (Sampled.mkEntity (name tle) positionProperty').

(** [calculateSatellitePositions]: its effects, and the exception that
    left it, if any. The state setter is reached only when the callback
    returned for every element set. *)
Definition calculateSatellitePositions (start : JulianDate.t)
    (tleData : option (list TleData))
    : list (effect (list Sampled.SatelliteEntity)) * option thrown :=
  match tleData with
  | None => ([], None)
  | Some tleData =>
      match arrayMap (buildTrajectory start) tleData with
      | inl entities => ([SetState entities], None)
      | inr e => ([], Some e)
      end
  end.
End WithCollaborators.
End Throwing.

(** ** Stand-ins for the collaborators

    Total functions with which the definitions above can be run. An element
    set whose first line is empty never propagates; one whose first line is
    "nan" propagates to a vector of NaN; any other propagates to a vector
    that depends on the instant. The conversion to the frame of the
    renderer raises on a number that is not finite ([toyRaises]); what
    [toy] gives there is a placeholder. *)

Module Fixture.
Local Open Scope Q_scope.

Definition nanVector : EciVec3 := mkEci JS.NaN JS.NaN JS.NaN.

Definition propagateToy (satrec : string) (date : Q) : PositionAndVelocity :=
  if String.eqb satrec EmptyString then
    mkPV (EciBoolean false) (EciBoolean false)
  else if String.eqb satrec "nan" then
    mkPV (EciVector nanVector) (EciVector nanVector)
  else
    mkPV (EciVector (mkEci (JS.Fin date) (JS.Fin 0) (JS.Fin 7000)))
         (EciVector (mkEci (JS.Fin 0) (JS.Fin 1) (JS.Fin 0))).

Definition toFinite (n : JS.number) : Q :=
  match n with JS.Fin q => q | _ => 0 end.

(** The product of the stand-ins: exact on finite numbers, which on the
    integers used here is what the host computes too, and not a number
    otherwise. *)
Definition timesToy (a b : JS.number) : JS.number :=
  match a, b with
  | JS.Fin p, JS.Fin q => JS.Fin (p * q)
  | _, _ => JS.NaN
  end.

Definition toy : Collaborators := {|
  JsDate := Q;
  Satrec := string;
  Cartesian3 := Interp.RenderCoordinate;
  times := timesToy;
  newDate := fun n => inject_Z (Z.of_nat n);
  toDate := fun julianDate => julianDate;
  twoline2satrec := fun line1 _ => line1;
  propagate := propagateToy;
  gstime := fun _ => JS.Fin 0;
  eciToGeodetic := fun v _ => mkGd (x v) (y v) (z v);
  degreesLong := fun n => n;
  degreesLat := fun n => n;
  fromDegrees := fun lon lat h =>
    Interp.mkPoint (toFinite lon) (toFinite lat) (toFinite h)
|}.

(** The conversion of the stand-ins raises when the longitude, the latitude
    or the height is not finite; no other call raises. *)
Definition toyRaises : Raises toy := {|
  twoline2satrecRaises := fun _ _ => None;
  toDateRaises := fun _ => None;
  propagateRaises := fun _ _ => None;
  gstimeRaises := fun _ => None;
  eciToGeodeticRaises := fun _ _ => None;
  degreesLongRaises := fun _ => None;
  degreesLatRaises := fun _ => None;
  fromDegreesRaises := fun lon lat h =>
    if JS.isFinite lon && JS.isFinite lat && JS.isFinite h then None
    else Some (DeveloperError "normalized result is not a number")
|}.

Definition sat1 : TleData := mkTle "SAT-1" "1 25544U" "2 25544".
Definition lost : TleData := mkTle "LOST" EmptyString EmptyString.
Definition broken : TleData := mkTle "BROKEN" "nan" EmptyString.

(** The trajectory built for [sat1] from the start 0. *)
Definition sat1Trajectory : Interp.Trajectory :=
  Sampled.entityPosition (Sampled.buildTrajectory (ext := toy) 0 sat1).

Definition sat1At (seconds : Q) : Interp.RenderCoordinate :=
  Interp.mkPoint seconds 0 7000000.
End Fixture.

(** ** What the renderer is given

    The properties of the [Entity] elements that the two revisions return,
    one for each element of the component state. *)

Module Scene.
Inductive Color : Type := RED | WHITE | BLACK.

Inductive Origin : Type := CENTER.

Record Cartesian2 : Type := mkCartesian2 { x2 : Q; y2 : Q }.

Record PointGraphics : Type := mkPointGraphics {
  pixelSize : Q;
  color : Color;
  outlineColor : Color;
  outlineWidth : Q
}.

Record LabelGraphics : Type := mkLabelGraphics {
  text : string;
  font : string;
  fillColor : Color;
  labelOutlineColor : Color;
  labelOutlineWidth : Q;
  pixelOffset : Cartesian2;
  horizontalOrigin : option Origin;
  verticalOrigin : option Origin;
  scale : option Q
}.

(** The properties of one [Entity]; [P] is what its position is given as. *)
Record Entity (P : Type) : Type := mkEntity {
  key : nat;
  entityName : option string;
  entityPosition : P;
  point : PointGraphics;
  label : LabelGraphics
}.
Arguments mkEntity {P} key entityName entityPosition point label.
Arguments key {P} e.
Arguments entityName {P} e.
Arguments entityPosition {P} e.
Arguments point {P} e.
Arguments label {P} e.

(** The point of both revisions. *)
Definition redPoint : PointGraphics := mkPointGraphics 5 RED WHITE 2.
End Scene.

Module SampledView.
Section WithCollaborators.
Context {ext : Collaborators}.

(** [satelliteEntities.map((satEntity, index) => <Entity ... />)] of the
    sampled revision. *)
Definition render (satelliteEntities : list Sampled.SatelliteEntity)
    : list (Scene.Entity Sampled.SampledPositionProperty) :=
  imap (fun index satEntity =>
          Scene.mkEntity index None (Sampled.entityPosition satEntity)
            Scene.redPoint
            (Scene.mkLabelGraphics (Sampled.entityName satEntity)
               "32px sans-serif" Scene.WHITE Scene.BLACK 2
               (Scene.mkCartesian2 0 20) (Some Scene.CENTER)
               (Some Scene.CENTER) (Some (1 # 2))))
       satelliteEntities.
End WithCollaborators.
End SampledView.

Module LiveView.
Section WithCollaborators.
Context {ext : Collaborators}.

(** [satellites.map((satellite, index) => <Entity ... />)] of the live
    revision. *)
Definition render (satellites : list Live.Satellite)
    : list (Scene.Entity Cartesian3) :=
  imap (fun index satellite =>
          Scene.mkEntity index (Some (Live.satelliteName satellite))
            (Live.entityPosition satellite)
            Scene.redPoint
            (Scene.mkLabelGraphics (Live.satelliteName satellite)
               "14pt sans-serif" Scene.WHITE Scene.BLACK 1
               (Scene.mkCartesian2 0 (-10)) None None None))
       satellites.
End WithCollaborators.
End LiveView.

(** ** The element sets of the live revision *)

Module LiveData.
Inductive QueryStatus : Type := StatusPending | StatusError | StatusSuccess.

(** What [useQuery] reports: the data are there when the status is
    success. *)
Inductive QueryResult : Type :=
| QueryPending
| QueryError
| QuerySuccess (cachedTleData : list TleData).

Definition status (q : QueryResult) : QueryStatus :=
  match q with
  | QueryPending => StatusPending
  | QueryError => StatusError
  | QuerySuccess _ => StatusSuccess
  end.

(** The initial value of the state [tleData]. *)
Definition initialTleData : list TleData := [].

(** The effect on [cachedTleData] and [tleDataStatus]:
    [if (tleDataStatus === "success") setTleData(cachedTleData)]. *)
Definition syncTleData (q : QueryResult) (tleData : list TleData)
    : list TleData :=
  match status q, q with
  | StatusSuccess, QuerySuccess cachedTleData => cachedTleData
  | _, _ => tleData
  end.

(** The state [tleData] after the reports [qs] of the query, oldest
    first. *)
Definition syncAll (qs : list QueryResult) (tleData : list TleData)
    : list TleData :=
  fold_left (fun current q => syncTleData q current) qs tleData.

(** The data of the latest success among the reports, if any. *)
Fixpoint latestSuccess (qs : list QueryResult) : option (list TleData) :=
  match qs with
  | [] => None
  | q :: rest =>
      match latestSuccess rest with
      | Some data => Some data
      | None =>
          match q with
          | QuerySuccess data => Some data
          | _ => None
          end
      end
  end.
End LiveData.

(** ** The frame rate meter of the sampled revision *)

Module Fps.
Local Open Scope Q_scope.

(** [Math.round] on an exact number: the nearest integer, halves up. *)
Definition round (x : Q) : Z := Qfloor (x + (1 # 2)).

Inductive VisibilityState : Type := Visible | Hidden.

(** The variables of the effect: the frames counted since the latest
    report, the instant of the latest report in milliseconds, and the
    identifier of the latest request for an animation frame. *)
Record Meter : Type := mkMeter {
  frameCount : nat;
  lastFpsUpdate : Q;
  animationFrameId : nat
}.

(** [calculateFps], run at the instant [now]; [id] is the identifier that
    the host returns for the request made at the end. The effects are the
    calls of [setFps]. The difference and the quotient are exact here; the
    host rounds them, so that a difference within a rounding error of 1000
    may fall on the other side of the guard. *)
Definition calculateFps (now : Q) (id : nat) (m : Meter)
    : Meter * list (effect Z) :=
  let frameCount := S (frameCount m) in
  if Qle_bool 1000 (now - lastFpsUpdate m) then
    let fps :=
      (inject_Z (Z.of_nat frameCount) * 1000) / (now - lastFpsUpdate m) in
    (mkMeter 0 now id, [SetState (round fps)])
  else
    (mkMeter frameCount (lastFpsUpdate m) id, []).


(** The component as far as the meter goes: the state [fps], the variables
    of the effect if it got past its guard, and the requests for an
    animation frame that the host still holds. *)
Record Component : Type := mkComponent {
  fps : Z;
  meter : option Meter;
  requests : list nat
}.

Definition cancel (id : nat) (requests : list nat) : list nat :=
  List.filter (fun r => negb (Nat.eqb r id)) requests.

(** The effect, run once when the component mounts: nothing if the document
    is hidden; otherwise the variables are set up and the first frame is
    requested. *)
Definition mount (visibilityState : VisibilityState) (now : Q) (id : nat)
    : Component :=
  match visibilityState with
  | Hidden => mkComponent 0 None []
  | Visible => mkComponent 0 (Some (mkMeter 0 now id)) [id]
  end.

(** The host serves the request of the meter, if it still holds it: the
    request leaves the queue and [calculateFps] runs. *)
Definition frame (now : Q) (id : nat) (c : Component) : Component :=
  match meter c with
  | Some m =>
      if existsb (Nat.eqb (animationFrameId m)) (requests c) then
        let (m', effects) := calculateFps now id m in
        mkComponent (published (fps c) effects) (Some m')
                    (id :: cancel (animationFrameId m) (requests c))
      else c
  | None => c
  end.

Definition frames (events : list (Q * nat)) (c : Component) : Component :=
  fold_left (fun c' e => frame (fst e) (snd e) c') events c.

(** The cleanup of the effect: the latest request is cancelled. An effect
    that returned at its guard has no cleanup. *)
Definition unmount (c : Component) : Component :=
  match meter c with
  | Some m =>
      mkComponent (fps c) (meter c) (cancel (animationFrameId m) (requests c))
  | None => c
  end.

(** The host holds exactly the latest request of the meter, or none if the
    effect returned at its guard, in which case the state is still 0. *)
Definition oneRequest (c : Component) : Prop :=
  match meter c with
  | Some m => requests c = [animationFrameId m]
  | None => requests c = [] /\ fps c = 0%Z
  end.


End Fps.

(* ================================================================== *)
(** * Part II. Properties *)
(* ================================================================== *)

(** ** The guard *)

Lemma guarded_vector (v : EciVec3) : guarded (EciVector v) = Some v.
Proof. reflexivity. Qed.

Lemma guarded_boolean (b : bool) : guarded (EciBoolean b) = None.
Proof. destruct b; reflexivity. Qed.

Lemma guarded_guard (p : EciOrBoolean) :
  positionGuard p = true <-> exists v, guarded p = Some v.
Proof.
  destruct p as [[|]|u]; cbn; split; try discriminate; eauto.
  all: intros [v E]; discriminate.
Qed.

(** ** The sampling loop *)

Section SamplingLoop.
Context {ext : Collaborators}.
Import Sampled.
Local Open Scope Q_scope.

Variable satrec : Satrec.
Variable start : JulianDate.t.

Lemma sampleStep_app (i : nat) (property : SampledPositionProperty) :
  sampleStep satrec start i property
  = property ++ omap (sampleAt satrec start) [i].
Proof.
  unfold sampleStep, addSample. cbn.
  destruct (sampleAt satrec start i) as [[time pos]|]; cbn.
  - reflexivity.
  - now rewrite app_nil_r.
Qed.

(** The loop adds, in order, the samples of the indices it runs over. *)
Lemma sampleLoop_omap (remaining i : nat) (property : SampledPositionProperty) :
  sampleLoop satrec start remaining i property
  = property ++ omap (sampleAt satrec start) (seq i remaining).
Proof.
  revert i property.
  induction remaining as [|n IH]; intros i property; cbn [sampleLoop seq].
  - now rewrite app_nil_r.
  - rewrite IH, sampleStep_app, <- app_assoc. f_equal.
    cbn. destruct (sampleAt satrec start i); reflexivity.
Qed.

(** One more iteration at the end of the loop is one more step. *)
Lemma sampleLoop_snoc (n i : nat) (property : SampledPositionProperty) :
  sampleLoop satrec start (S n) i property
  = sampleStep satrec start (i + n)
      (sampleLoop satrec start n i property).
Proof.
  rewrite sampleStep_app, !sampleLoop_omap, <- app_assoc. f_equal.
  rewrite seq_S, omap_app. reflexivity.
Qed.

Lemma sampleAt_time (i : nat) (time : JulianDate.t) (p : Cartesian3) :
  sampleAt satrec start i = Some (time, p) -> time = sampleTime start i.
Proof.
  unfold sampleAt.
  destruct (guarded _); intros E; inversion E; reflexivity.
Qed.

Lemma sampleTime_lt (i j : nat) :
  (i < j)%nat -> sampleTime start i < sampleTime start j.
Proof.
  intros Hij. unfold sampleTime, JulianDate.addHours, JulianDate.secondsPerHour.
  assert (inject_Z (Z.of_nat i) < inject_Z (Z.of_nat j))
    by (rewrite <- Zlt_Qlt; lia).
  lra.
Qed.

Lemma sampleTime_le (i j : nat) :
  (i <= j)%nat -> sampleTime start i <= sampleTime start j.
Proof.
  intros Hij. destruct (Nat.eq_dec i j) as [->|Hne].
  - apply Qle_refl.
  - apply Qlt_le_weak, sampleTime_lt. lia.
Qed.

Lemma sampleTime_0 : sampleTime start 0 == start.
Proof.
  unfold sampleTime, JulianDate.addHours. cbn. ring.
Qed.

(** The epoch times of the samples of the indices [i .. i+n-1]: each is
    the instant of one of these indices, and that index gave a sample. *)
Lemma epochTimes_range (n i : nat) :
  Forall (fun time => exists j, (i <= j < i + n)%nat
                                /\ sampleAt satrec start j <> None
                                /\ time = sampleTime start j)
         (epochTimes (omap (sampleAt satrec start) (seq i n))).
Proof.
  revert i. induction n as [|n IH]; intros i; cbn [seq omap].
  - constructor.
  - specialize (IH (S i)).
    assert (Forall (fun time => exists j, (i <= j < i + S n)%nat
                                /\ sampleAt satrec start j <> None
                                /\ time = sampleTime start j)
              (epochTimes (omap (sampleAt satrec start) (seq (S i) n)))) as IH'.
    { eapply Forall_impl; [exact IH|].
      intros time [j [Hj [Hs ->]]]. exists j. split; [lia|auto]. }
    cbn. destruct (sampleAt satrec start i) as [[time p]|] eqn:E.
    + cbn. constructor; [|exact IH'].
      exists i. split; [lia|]. split; [congruence|].
      eapply sampleAt_time, E.
    + exact IH'.
Qed.

Lemma epochTimes_increasing (n i : nat) :
  StronglySorted Qlt (epochTimes (omap (sampleAt satrec start) (seq i n))).
Proof.
  revert i. induction n as [|n IH]; intros i; cbn [seq omap].
  - constructor.
  - cbn. destruct (sampleAt satrec start i) as [[time p]|] eqn:E.
    + cbn. constructor; [apply IH|].
      apply sampleAt_time in E. subst time.
      eapply Forall_impl; [apply epochTimes_range|].
      intros time [j [Hj [_ ->]]]. apply sampleTime_lt. lia.
    + apply IH.
Qed.
End SamplingLoop.

Section TrajectoryBuild.
Context {ext : Collaborators}.
Import Sampled.
Local Open Scope Q_scope.

Lemma buildTrajectory_omap (start : JulianDate.t) (tle : TleData) :
  entityPosition (buildTrajectory start tle)
  = omap (sampleAt (twoline2satrec (line1 tle) (line2 tle)) start)
         (seq 0 sampleCount).
Proof.
  unfold buildTrajectory. cbn [entityPosition].
  now rewrite sampleLoop_omap.
Qed.

Lemma sampleAt_guard (satrec : Satrec) (start : JulianDate.t) (i : nat) :
  positionGuard (position (propagate satrec (toDate (sampleTime start i))))
    = true ->
  exists p, sampleAt satrec start i = Some (sampleTime start i, p).
Proof.
  intros G. apply guarded_guard in G as [v G].
  unfold sampleAt. rewrite G. eauto.
Qed.

Lemma epochTimes_window (start : JulianDate.t) (tle : TleData) :
  Forall (fun time =>
            start <= time
            <= start + inject_Z (Z.of_nat (sampleCount - 1)) * sampleSpacing)
         (epochTimes (entityPosition (buildTrajectory start tle))).
Proof.
  rewrite buildTrajectory_omap.
  eapply Forall_impl; [apply epochTimes_range|].
  intros time [j [Hj [_ ->]]]. split.
  - rewrite <- (sampleTime_0 start) at 1. apply sampleTime_le. lia.
  - change (sampleTime start j <= sampleTime start (sampleCount - 1)).
    apply sampleTime_le. cbn in Hj |- *. unfold sampleCount in *. lia.
Qed.

(** When no library call raises: the trajectory built for an element set
    holds, in order, the samples of the indices 0 .. sampleCount-1, an
    index whose propagated position does not pass the guard adds nothing,
    and the epoch times strictly increase within the window. *)
Lemma buildTrajectory_epochs (start : JulianDate.t) (tle : TleData) :
  let satrec := twoline2satrec (line1 tle) (line2 tle) in
  let trajectory := entityPosition (buildTrajectory start tle) in
  (forall i : nat,
      sampleAt satrec start i
      = let time := start + inject_Z (Z.of_nat i) * sampleSpacing in
        match guarded (position (propagate satrec (toDate time))) with
        | Some v => Some (time, toRenderFrame v (gstime (toDate time)))
        | None => None
        end)
  /\ trajectory = omap (sampleAt satrec start) (seq 0 sampleCount)
  /\ (forall (i : nat) (sample : JulianDate.t * Cartesian3),
        (i < sampleCount)%nat ->
        sampleAt satrec start i = Some sample -> In sample trajectory)
  /\ (forall i : nat,
        (i < sampleCount)%nat ->
        sampleAt satrec start i = None ->
        Forall (fun time => ~ time == sampleTime start i)
               (epochTimes trajectory))
  /\ StronglySorted Qlt (epochTimes trajectory)
  /\ Forall (fun time =>
               start <= time
               <= start
                  + inject_Z (Z.of_nat (sampleCount - 1)) * sampleSpacing)
            (epochTimes trajectory)
  /\ (start = 0 ->
      (forall i : nat,
          (i < sampleCount)%nat ->
          positionGuard
            (position (propagate satrec (toDate (sampleTime start i))))
          = true) ->
      epochTimes trajectory = [0; 3600; 7200; 10800]).
Proof.
  intros satrec trajectory.
  assert (trajectory = omap (sampleAt satrec start) (seq 0 sampleCount)) as Eq
    by apply buildTrajectory_omap.
  split; [reflexivity|]. split; [exact Eq|].
  split; [|split; [|split; [|split]]].
  - intros i sample Hi E. rewrite Eq.
    apply list_elem_of_In, list_elem_of_omap.
    exists i. split; [|exact E].
    apply list_elem_of_In, in_seq. lia.
  - intros i Hi E. rewrite Eq.
    eapply Forall_impl; [apply epochTimes_range|].
    intros time [j [Hj [Hs ->]]] Heq.
    destruct (Nat.lt_total i j) as [Lt|[->|Gt]].
    + apply (sampleTime_lt start) in Lt. lra.
    + contradiction.
    + apply (sampleTime_lt start) in Gt. lra.
  - rewrite Eq. apply epochTimes_increasing.
  - apply epochTimes_window.
  - intros -> G. rewrite Eq. unfold sampleCount in *. cbn [seq omap list_omap].
    destruct (sampleAt_guard satrec 0 0 (G 0%nat ltac:(lia))) as [p0 ->].
    destruct (sampleAt_guard satrec 0 1 (G 1%nat ltac:(lia))) as [p1 ->].
    destruct (sampleAt_guard satrec 0 2 (G 2%nat ltac:(lia))) as [p2 ->].
    destruct (sampleAt_guard satrec 0 3 (G 3%nat ltac:(lia))) as [p3 ->].
    reflexivity.
Qed.
End TrajectoryBuild.

(** ** The sampled revision when library calls raise *)

Section Exceptions.
Context {ext : Collaborators} {raises : Raises ext}.
Local Open Scope Q_scope.

Lemma call_returns {A : Type} (raise : option thrown) (value a : A) :
  Throwing.call raise value = inl a <-> raise = None /\ a = value.
Proof.
  unfold Throwing.call. destruct raise; split.
  - discriminate.
  - intros [E _]. discriminate.
  - intros E. inversion E. auto.
  - intros [_ ->]. reflexivity.
Qed.

Lemma call_raises {A : Type} (raise : option thrown) (value : A) (e : thrown) :
  Throwing.call raise value = inr e <-> raise = Some e.
Proof.
  unfold Throwing.call. destruct raise; split; intros E;
    inversion E; reflexivity.
Qed.

(** A conversion that returns gives the point of the conversion without
    exceptions. *)
Lemma toRenderFrame_returns (v : EciVec3) (gmst : JS.number) (p : Cartesian3) :
  Throwing.toRenderFrame v gmst = inl p -> p = Sampled.toRenderFrame v gmst.
Proof.
  unfold Throwing.toRenderFrame, Sampled.toRenderFrame, Throwing.andThen,
    Throwing.call.
  destruct (eciToGeodeticRaises v gmst); [discriminate|].
  destruct (degreesLongRaises _); [discriminate|].
  destruct (degreesLatRaises _); [discriminate|].
  destruct (fromDegreesRaises _ _ _); [discriminate|].
  intros E. inversion E. reflexivity.
Qed.

Lemma sampleAt_returns (satrec : Satrec) (start : JulianDate.t) (i : nat)
    (sample : option (JulianDate.t * Cartesian3)) :
  Throwing.sampleAt satrec start i = inl sample ->
  sample = Sampled.sampleAt satrec start i.
Proof.
  unfold Throwing.sampleAt, Sampled.sampleAt, Throwing.andThen, Throwing.call.
  destruct (toDateRaises _); [discriminate|].
  destruct (propagateRaises _ _); [discriminate|].
  destruct (guarded _) as [v|]; [|intros E; now inversion E].
  destruct (gstimeRaises _); [discriminate|].
  destruct (Throwing.toRenderFrame v _) as [p|e] eqn:C; [|discriminate].
  apply toRenderFrame_returns in C. subst p.
  intros E. now inversion E.
Qed.

Lemma sampleStep_sampleAt (satrec : Satrec) (start : JulianDate.t) (i : nat)
    (property : Sampled.SampledPositionProperty) :
  Throwing.sampleStep satrec start i property
  = match Throwing.sampleAt satrec start i with
    | inl _ => inl (Sampled.sampleStep satrec start i property)
    | inr e => inr e
    end.
Proof.
  unfold Throwing.sampleStep, Throwing.andThen.
  destruct (Throwing.sampleAt satrec start i) as [sample|e] eqn:E;
    [|reflexivity].
  apply sampleAt_returns in E. unfold Sampled.sampleStep. rewrite <- E.
  now destruct sample as [[time p]|].
Qed.

(** A loop that returns went through every index without an exception and
    gives what the loop without exceptions gives. *)
Lemma sampleLoop_returns (satrec : Satrec) (start : JulianDate.t)
    (remaining : nat) :
  forall (i : nat) (property result : Sampled.SampledPositionProperty),
    Throwing.sampleLoop satrec start remaining i property = inl result ->
    result = Sampled.sampleLoop satrec start remaining i property
    /\ forall j : nat,
         (i <= j < i + remaining)%nat ->
         Throwing.sampleAt satrec start j
         = inl (Sampled.sampleAt satrec start j).
Proof.
  induction remaining as [|n IH]; intros i property result E.
  - cbn in E. inversion E. split; [reflexivity|]. intros j Hj. lia.
  - cbn [Throwing.sampleLoop Sampled.sampleLoop] in *.
    rewrite sampleStep_sampleAt in E.
    destruct (Throwing.sampleAt satrec start i) as [sample|e] eqn:A;
      [|discriminate].
    cbn [Throwing.andThen] in E. apply IH in E as [-> Rest].
    split; [reflexivity|]. intros j Hj.
    destruct (Nat.eq_dec j i) as [->|Hne].
    + rewrite A. f_equal. now apply sampleAt_returns.
    + apply Rest. lia.
Qed.

(** The first exception of an index leaves the loop. *)
Lemma sampleLoop_raises (satrec : Satrec) (start : JulianDate.t)
    (remaining : nat) :
  forall (i k : nat) (property : Sampled.SampledPositionProperty)
         (e : thrown),
    (i <= k < i + remaining)%nat ->
    (forall j : nat,
        (i <= j < k)%nat ->
        exists sample, Throwing.sampleAt satrec start j = inl sample) ->
    Throwing.sampleAt satrec start k = inr e ->
    Throwing.sampleLoop satrec start remaining i property = inr e.
Proof.
  induction remaining as [|n IH]; intros i k property e Hk Before A.
  - lia.
  - cbn [Throwing.sampleLoop]. rewrite sampleStep_sampleAt.
    destruct (Nat.eq_dec i k) as [->|Hne].
    + rewrite A. reflexivity.
    + destruct (Before i ltac:(lia)) as [sample ->]. cbn [Throwing.andThen].
      apply (IH (S i) k); [lia| |exact A].
      intros j Hj. apply Before. lia.
Qed.

Lemma buildTrajectory_returns (start : JulianDate.t) (tle : TleData)
    (entity : Sampled.SatelliteEntity) :
  Throwing.buildTrajectory start tle = inl entity ->
  entity = Sampled.buildTrajectory start tle
  /\ forall i : nat,
       (i < Sampled.sampleCount)%nat ->
       Throwing.sampleAt (twoline2satrec (line1 tle) (line2 tle)) start i
       = inl (Sampled.sampleAt (twoline2satrec (line1 tle) (line2 tle))
                               start i).
Proof.
  unfold Throwing.buildTrajectory, Sampled.buildTrajectory,
    Throwing.andThen at 1, Throwing.call.
  destruct (twoline2satrecRaises _ _); [discriminate|].
  unfold Throwing.andThen.
  destruct (Throwing.sampleLoop _ start Sampled.sampleCount 0 [])
    as [result|e] eqn:L; [|discriminate].
  apply sampleLoop_returns in L as [-> All].
  intros E. inversion E. split; [reflexivity|].
  intros i Hi. apply All. lia.
Qed.

Lemma buildTrajectory_raises (start : JulianDate.t) (tle : TleData)
    (i : nat) (e : thrown) :
  let satrec := twoline2satrec (line1 tle) (line2 tle) in
  twoline2satrecRaises (line1 tle) (line2 tle) = None ->
  (i < Sampled.sampleCount)%nat ->
  (forall j : nat,
      (j < i)%nat ->
      exists sample, Throwing.sampleAt satrec start j = inl sample) ->
  Throwing.sampleAt satrec start i = inr e ->
  Throwing.buildTrajectory start tle = inr e.
Proof.
  intros satrec T Hi Before A. unfold Throwing.buildTrajectory.
  rewrite T. cbn [Throwing.call Throwing.andThen]. fold satrec.
  rewrite (sampleLoop_raises satrec start Sampled.sampleCount 0 i [] e);
    [reflexivity|lia| |exact A].
  intros j Hj. apply Before. lia.
Qed.

Lemma arrayMap_returns (start : JulianDate.t) (tleData : list TleData) :
  forall entities : list Sampled.SatelliteEntity,
    Throwing.arrayMap (Throwing.buildTrajectory start) tleData = inl entities ->
    entities = map (Sampled.buildTrajectory start) tleData.
Proof.
  induction tleData as [|tle rest IH]; intros entities E.
  - cbn in E. now inversion E.
  - cbn [Throwing.arrayMap map] in *. unfold Throwing.andThen in E.
    destruct (Throwing.buildTrajectory start tle) as [entity|e] eqn:B;
      [|discriminate].
    destruct (Throwing.arrayMap _ rest) as [others|e]; [|discriminate].
    apply buildTrajectory_returns in B as [-> _].
    inversion E. f_equal. now apply IH.
Qed.

(** The first exception of a callback leaves [map]. *)
Lemma arrayMap_raises (start : JulianDate.t) (done rest : list TleData)
    (tle : TleData) (e : thrown) :
  Forall (fun t => exists entity, Throwing.buildTrajectory start t = inl entity)
         done ->
  Throwing.buildTrajectory start tle = inr e ->
  Throwing.arrayMap (Throwing.buildTrajectory start) (done ++ tle :: rest)
  = inr e.
Proof.
  intros D B. induction D as [|t done [entity Ht] _ IH]; cbn [app].
  - cbn [Throwing.arrayMap]. now rewrite B.
  - cbn [Throwing.arrayMap]. rewrite Ht. cbn [Throwing.andThen].
    now rewrite IH.
Qed.

(** A refresh that returns has the effects of the refresh without
    exceptions. *)
Lemma calculateSatellitePositions_returns (start : JulianDate.t)
    (tleData : option (list TleData))
    (effects : list (effect (list Sampled.SatelliteEntity))) :
  Throwing.calculateSatellitePositions start tleData = (effects, None) ->
  effects = Sampled.calculateSatellitePositions start tleData.
Proof.
  unfold Throwing.calculateSatellitePositions,
    Sampled.calculateSatellitePositions.
  destruct tleData as [records|]; [|intros E; now inversion E].
  destruct (Throwing.arrayMap _ records) as [entities|e] eqn:M;
    [|discriminate].
  apply arrayMap_returns in M. subst entities. intros E. now inversion E.
Qed.
End Exceptions.

Section SamplerWithExceptions.
Context {ext : Collaborators} {raises : Raises ext}.
Import Throwing.
Local Open Scope Q_scope.

(** C1, as the code has it. For every element set and start of the window,
    iteration [i] of the loop, for i = 0 .. sampleCount-1, takes the
    instant [start + i * sampleSpacing], propagates the element set at it
    and, if the propagated position passes the guard, converts it to the
    rendering frame and appends the instant with the converted position. An
    index whose propagated position does not pass the guard is skipped: it
    adds nothing and the loop goes on. An index at which a library call
    raises, the conversion included, is not skipped: the exception of the
    first such index leaves the loop and the build. When the build returns,
    the trajectory holds, in order, the samples of the indices that passed
    the guard, its epoch times strictly increase and lie between the start
    and [start + (sampleCount-1) * sampleSpacing], and with start 0 and
    four positions that pass the guard the epochs are at 0, 3600, 7200 and
    10800 seconds. *)
Theorem C1_buildTrajectory_skips_guard_and_lets_raise
    (start : JulianDate.t) (tle : TleData) :
  let satrec := twoline2satrec (line1 tle) (line2 tle) in
  let time := fun i : nat =>
    start + inject_Z (Z.of_nat i) * Sampled.sampleSpacing in
  (forall i : nat,
      Throwing.sampleAt satrec start i
      = get jsDate <- call (toDateRaises (time i)) (toDate (time i));
        get positionAndVelocity <- call (propagateRaises satrec jsDate)
                                        (propagate satrec jsDate);
        match guarded (position positionAndVelocity) with
        | Some v =>
            get gmst <- call (gstimeRaises jsDate) (gstime jsDate);
            get p <- Throwing.toRenderFrame v gmst;
            inl (Some (time i, p))
        | None => inl None
        end)
  /\ (forall (i : nat) (property : Sampled.SampledPositionProperty),
        toDateRaises (time i) = None ->
        propagateRaises satrec (toDate (time i)) = None ->
        positionGuard (position (propagate satrec (toDate (time i)))) = false ->
        Throwing.sampleStep satrec start i property = inl property)
  /\ (forall entity : Sampled.SatelliteEntity,
        Throwing.buildTrajectory start tle = inl entity ->
        let trajectory := Sampled.entityPosition entity in
        Sampled.entityName entity = name tle
        /\ trajectory
           = omap (Sampled.sampleAt satrec start) (seq 0 Sampled.sampleCount)
        /\ (forall i : nat,
              (i < Sampled.sampleCount)%nat ->
              Throwing.sampleAt satrec start i
              = inl (Sampled.sampleAt satrec start i))
        /\ (forall (i : nat) (sample : JulianDate.t * Cartesian3),
              (i < Sampled.sampleCount)%nat ->
              Throwing.sampleAt satrec start i = inl (Some sample) ->
              In sample trajectory)
        /\ (forall i : nat,
              (i < Sampled.sampleCount)%nat ->
              Throwing.sampleAt satrec start i = inl None ->
              Forall (fun t => ~ t == time i) (Sampled.epochTimes trajectory))
        /\ StronglySorted Qlt (Sampled.epochTimes trajectory)
        /\ Forall (fun t =>
                     start <= t
                     <= start
                        + inject_Z (Z.of_nat (Sampled.sampleCount - 1))
                          * Sampled.sampleSpacing)
                  (Sampled.epochTimes trajectory)
        /\ (start = 0 ->
            (forall i : nat,
                (i < Sampled.sampleCount)%nat ->
                positionGuard
                  (position (propagate satrec (toDate (time i)))) = true) ->
            Sampled.epochTimes trajectory = [0; 3600; 7200; 10800]))
  /\ (forall (i : nat) (e : thrown),
        (i < Sampled.sampleCount)%nat ->
        twoline2satrecRaises (line1 tle) (line2 tle) = None ->
        (forall j : nat,
            (j < i)%nat ->
            exists sample, Throwing.sampleAt satrec start j = inl sample) ->
        Throwing.sampleAt satrec start i = inr e ->
        Throwing.buildTrajectory start tle = inr e)
  /\ (forall (i : nat) (v : EciVec3) (e : thrown),
        toDateRaises (time i) = None ->
        propagateRaises satrec (toDate (time i)) = None ->
        position (propagate satrec (toDate (time i))) = EciVector v ->
        gstimeRaises (toDate (time i)) = None ->
        Throwing.toRenderFrame v (gstime (toDate (time i))) = inr e ->
        Throwing.sampleAt satrec start i = inr e).
Proof.
  intros satrec time.
  split; [reflexivity|]. split; [|split; [|split]].
  - intros i property D P G.
    unfold Throwing.sampleStep, Throwing.sampleAt.
    change (Sampled.sampleTime start i) with (time i).
    rewrite D. cbn [call andThen]. rewrite P. cbn [call andThen].
    assert (guarded (position (propagate satrec (toDate (time i)))) = None)
      as ->; [|reflexivity].
    destruct (guarded _) as [v|] eqn:E; [|reflexivity].
    assert (positionGuard (position (propagate satrec (toDate (time i))))
            = true) as G' by (apply guarded_guard; eauto).
    congruence.
  - intros entity B trajectory. subst satrec.
    apply buildTrajectory_returns in B as [-> All]. subst trajectory.
    destruct (buildTrajectory_epochs start tle)
      as [_ [Om [Inn [Skip [Sorted [Window Scenario]]]]]].
    split; [reflexivity|]. split; [exact Om|]. split; [exact All|].
    split; [|split; [|split; [exact Sorted|split; [exact Window|]]]].
    + intros i sample Hi A. apply (Inn i sample Hi).
      rewrite (All i Hi) in A. now inversion A.
    + intros i Hi A. apply (Skip i Hi).
      rewrite (All i Hi) in A. now inversion A.
    + exact Scenario.
  - intros i e Hi T Before A.
    now apply (buildTrajectory_raises start tle i e).
  - intros i v e D P V G C.
    unfold Throwing.sampleAt.
    change (Sampled.sampleTime start i) with (time i).
    rewrite D. cbn [call andThen]. rewrite P. cbn [call andThen].
    rewrite V, guarded_vector, G. cbn [call andThen]. now rewrite C.
Qed.
End SamplerWithExceptions.

Lemma C1_buildTrajectory_skips_guard_and_lets_raise_witness :
  exists entity : Sampled.SatelliteEntity,
    Throwing.buildTrajectory (raises := Fixture.toyRaises) 0%Q Fixture.sat1
    = inl entity
    /\ Sampled.epochTimes (Sampled.entityPosition entity)
       = [0; 3600; 7200; 10800]%Q.
Proof.
  eexists. split; [reflexivity|].
  destruct (C1_buildTrajectory_skips_guard_and_lets_raise
              (raises := Fixture.toyRaises) 0%Q Fixture.sat1)
    as [_ [_ [Returned _]]].
  destruct (Returned _ eq_refl) as [_ [_ [_ [_ [_ [_ [_ Scenario]]]]]]].
  apply Scenario; [reflexivity|]. intros i _. reflexivity.
Defined.

(** An element set whose propagated vector is not finite: the vector passes
    the guard, the conversion raises, and the build of the trajectory ends
    with the exception at its first index; the index is not skipped. *)
Lemma C1_raising_conversion_aborts_build :
  let e := DeveloperError "normalized result is not a number" in
  positionGuard
    (position (propagate (Collaborators := Fixture.toy) "nan"%string
                 (toDate (Sampled.sampleTime 0%Q 0))))
  = true
  /\ Throwing.toRenderFrame (raises := Fixture.toyRaises)
       Fixture.nanVector (JS.Fin 0) = inr e
  /\ Throwing.sampleStep (raises := Fixture.toyRaises) "nan"%string 0%Q 0 []
     = inr e
  /\ Throwing.buildTrajectory (raises := Fixture.toyRaises) 0%Q Fixture.broken
     = inr e.
Proof. repeat split. Qed.

(** ** The live revision, one element set at a time *)

Section LiveLocate.
Context {ext : Collaborators}.

Lemma mapM_cons {A B : Type} (f : A -> Live.M B) (a : A) (rest : list A)
    (w : Live.World) :
  Live.mapM f (a :: rest) w
  = let (b, w') := f a w in
    let (bs, w'') := Live.mapM f rest w' in
    (b :: bs, w'').
Proof.
  cbn [Live.mapM]. unfold Live.bind, Live.ret.
  destruct (f a w) as [b w']. destruct (Live.mapM f rest w'); reflexivity.
Qed.

(** A position that does not pass the guard: one reading of the clock, one
    console error, and [null]. *)
Lemma locate_failure (tle : TleData) (w : Live.World) :
  guarded (position (propagate (twoline2satrec (line1 tle) (line2 tle))
                               (newDate (Live.clockReads w)))) = None ->
  Live.locate tle w
  = (None,
     Live.mkWorld (S (Live.clockReads w))
       (Live.effects w
        ++ [ConsoleError "Something is wrong with the data"])).
Proof.
  intros G. unfold Live.locate, Live.bind, Live.now. cbn [Live.clockReads].
  rewrite G. reflexivity.
Qed.

(** A position that passes the guard: two readings of the clock, no
    effect, and the satellite. *)
Lemma locate_success (tle : TleData) (w : Live.World) (v : EciVec3) :
  guarded (position (propagate (twoline2satrec (line1 tle) (line2 tle))
                               (newDate (Live.clockReads w)))) = Some v ->
  Live.locate tle w
  = (Some (Live.mkSatellite (name tle)
             (Live.toSatellitePosition v
                (gstime (newDate (S (Live.clockReads w)))))),
     Live.mkWorld (S (S (Live.clockReads w))) (Live.effects w)).
Proof.
  intros G. unfold Live.locate, Live.bind, Live.now. cbn [Live.clockReads].
  rewrite G. reflexivity.
Qed.
End LiveLocate.

(** ** The frame conversion *)

Section FrameConversion.
Context {ext : Collaborators} {raises : Raises ext}.
Import Throwing.
Local Open Scope Q_scope.





(** C6, as the code has it. The conversion is left out exactly when the
    propagated position is a boolean, that is, not an object; every vector
    goes to the conversion, the finite ones and also those with a component
    that is not finite, and nothing tests whether the components are
    finite. With a date and a propagation that return, an index whose
    position is a boolean gives no sample and raises nothing, and the loop
    goes on with the property as it was; an index whose position is a
    vector gives a sample when the sidereal time and the conversion return
    and raises what they raise otherwise. An exception is fatal to the
    refresh: if the build of one element set raises after the builds
    before it returned, [calculateSatellitePositions] raises it and calls
    no state setter. In the live revision a position that does not pass the
    guard is reported on the console, gives [null], and the element sets
    that follow are still located. *)
Theorem C6_conversion_guard :
  (forall p : EciOrBoolean,
      guarded p = None <-> exists b : bool, p = EciBoolean b)
  /\ (forall v : EciVec3, guarded (EciVector v) = Some v)
  /\ (forall (satrec : Satrec) (start : JulianDate.t) (i : nat),
        let time := Sampled.sampleTime start i in
        toDateRaises time = None ->
        propagateRaises satrec (toDate time) = None ->
        match position (propagate satrec (toDate time)) with
        | EciBoolean _ => Throwing.sampleAt satrec start i = inl None
        | EciVector v =>
            Throwing.sampleAt satrec start i
            = get gmst <- call (gstimeRaises (toDate time))
                               (gstime (toDate time));
              get p <- Throwing.toRenderFrame v gmst;
              inl (Some (time, p))
        end)
  /\ (forall (satrec : Satrec) (start : JulianDate.t) (i : nat)
             (property : Sampled.SampledPositionProperty),
        Throwing.sampleAt satrec start i = inl None ->
        Throwing.sampleStep satrec start i property = inl property)
  /\ (forall (start : JulianDate.t) (done rest : list TleData)
             (tle : TleData) (e : thrown),
        Forall (fun t =>
                  exists entity, Throwing.buildTrajectory start t = inl entity)
               done ->
        Throwing.buildTrajectory start tle = inr e ->
        Throwing.calculateSatellitePositions start
          (Some (done ++ tle :: rest))
        = ([], Some e))
  /\ (forall (tle : TleData) (rest : list TleData) (w : Live.World),
        match position
                (propagate (twoline2satrec (line1 tle) (line2 tle))
                           (newDate (Live.clockReads w)))
        with
        | EciVector _ => True
        | EciBoolean _ =>
            exists (located : list (option Live.Satellite)) (w' : Live.World),
              Live.mapM Live.locate rest
                (Live.mkWorld (S (Live.clockReads w))
                   (Live.effects w
                    ++ [ConsoleError "Something is wrong with the data"]))
              = (located, w')
              /\ Live.mapM Live.locate (tle :: rest) w
                 = (None :: located, w')
        end).
Proof.
  split; [|split; [|split; [|split; [|split]]]].
  - intros [b|v]; split.
    + eauto.
    + intros _. apply guarded_boolean.
    + rewrite guarded_vector. discriminate.
    + intros [b E]. discriminate.
  - apply guarded_vector.
  - intros satrec start i time D P. unfold Throwing.sampleAt. fold time.
    rewrite D. cbn [call andThen]. rewrite P. cbn [call andThen].
    destruct (position (propagate satrec (toDate time))) as [b|v].
    + now rewrite guarded_boolean.
    + now rewrite guarded_vector.
  - intros satrec start i property A. unfold Throwing.sampleStep.
    now rewrite A.
  - intros start done rest tle e D B.
    unfold Throwing.calculateSatellitePositions.
    now rewrite (arrayMap_raises start done rest tle e D B).
  - intros tle rest w.
    destruct (position _) as [b|v] eqn:E; [|exact I].
    destruct (Live.mapM Live.locate rest
                (Live.mkWorld (S (Live.clockReads w))
                   (Live.effects w
                    ++ [ConsoleError "Something is wrong with the data"])))
      as [located w'] eqn:R.
    exists located, w'. split; [reflexivity|].
    rewrite mapM_cons, locate_failure by (rewrite E; apply guarded_boolean).
    rewrite R. reflexivity.
Qed.
End FrameConversion.


Lemma C6_conversion_guard_witness :
  Throwing.calculateSatellitePositions (raises := Fixture.toyRaises) 3600%Q
    (Some ([Fixture.lost] ++ Fixture.broken :: [Fixture.sat1]))
  = ([], Some (DeveloperError "normalized result is not a number")).
Proof.
  apply (C6_conversion_guard (raises := Fixture.toyRaises)).
  - repeat constructor. eexists. reflexivity.
  - reflexivity.
Defined.

(** A vector of NaN is not finite and passes the guard; its conversion is
    not left out: it raises, and the refresh over an array that holds its
    element set raises too and publishes nothing, not even the element
    sets that propagate. *)
Lemma C6_nan_vector_raises_and_aborts :
  let e := DeveloperError "normalized result is not a number" in
  isFiniteVector Fixture.nanVector = false
  /\ positionGuard (EciVector Fixture.nanVector) = true
  /\ (forall i : nat,
        position (propagate (Collaborators := Fixture.toy) "nan"%string
                    (toDate (Sampled.sampleTime 0%Q i)))
        = EciVector Fixture.nanVector)
  /\ (forall i : nat,
        Throwing.sampleAt (raises := Fixture.toyRaises) "nan"%string 0%Q i
        = inr e)
  /\ Throwing.calculateSatellitePositions (raises := Fixture.toyRaises) 0%Q
       (Some [Fixture.sat1; Fixture.broken; Fixture.sat1])
     = ([], Some e).
Proof. repeat split. Qed.

(** ** What a refresh publishes *)

Section Refresh.
Context {ext : Collaborators}.
Import Sampled.
Local Open Scope Q_scope.


(** An element set none of whose propagations passes the guard gets an
    entity without epochs. *)
Lemma buildTrajectory_all_fail (start : JulianDate.t) (tle : TleData) :
  (forall i : nat,
      sampleAt (twoline2satrec (line1 tle) (line2 tle)) start i = None) ->
  buildTrajectory start tle = mkEntity (name tle) [].
Proof.
  intros F. unfold buildTrajectory. f_equal.
  rewrite sampleLoop_omap. cbn [app].
  generalize 0%nat. induction sampleCount as [|n IH]; intros i.
  - reflexivity.
  - cbn [seq]. cbn. rewrite F. apply IH.
Qed.

(** In the live revision an element set whose position does not pass the
    guard is reported on the console and left out: the run goes on as the
    run over the remaining element sets. *)
Lemma live_failure_omitted (tle : TleData) (rest : list TleData)
    (w : Live.World) :
  guarded (position (propagate (twoline2satrec (line1 tle) (line2 tle))
                               (newDate (Live.clockReads w)))) = None ->
  Live.calculateSatellitePositions (tle :: rest) w
  = Live.calculateSatellitePositions rest
      (Live.mkWorld (S (Live.clockReads w))
         (Live.effects w
          ++ [ConsoleError "Something is wrong with the data"])).
Proof.
  intros G. unfold Live.calculateSatellitePositions, Live.bind.
  rewrite mapM_cons, locate_failure by exact G.
  destruct (Live.mapM Live.locate rest _) as [located w']. reflexivity.
Qed.

(** C7, as the code has it. While the element sets are undefined the
    refresh returns at once, and what was published stays published; when
    the source yields an array without records the refresh hands the empty
    array to the state setter, and the empty set takes the place of the
    one published before, whatever it held. The refresh writes nothing to
    the console in any case. *)
Theorem C7_refresh_without_records
    (start : JulianDate.t) (lastGood : list SatelliteEntity) :
  calculateSatellitePositions start None = []
  /\ published lastGood (calculateSatellitePositions start None) = lastGood
  /\ calculateSatellitePositions start (Some []) = [SetState []]
  /\ published lastGood (calculateSatellitePositions start (Some [])) = []
  /\ (forall tleData : option (list TleData),
        consoleErrors (calculateSatellitePositions start tleData) = []).
Proof.
  repeat split. intros [tleData|]; reflexivity.
Qed.

Lemma omap_length_le {A B : Type} (f : A -> option B) (l : list A) :
  (length (omap f l) <= length l)%nat.
Proof.
  induction l as [|a l IH]; cbn; [lia|].
  destruct (f a); cbn; lia.
Qed.

Lemma buildTrajectory_length (start : JulianDate.t) (tle : TleData) :
  (length (entityPosition (buildTrajectory start tle)) <= 4)%nat.
Proof.
  rewrite buildTrajectory_omap. etransitivity; [apply omap_length_le|].
  now rewrite length_seq.
Qed.

Lemma buildTrajectory_withinWindow (start : JulianDate.t) (tle : TleData) :
  withinWindow start (buildTrajectory start tle).
Proof.
  split; [apply buildTrajectory_length|].
  eapply Forall_impl; [apply epochTimes_window|].
  cbn beta. intros time [Hl Hu]. split; [exact Hl|].
  unfold sampleCount, sampleSpacing, JulianDate.secondsPerHour in Hu.
  cbn in Hu. exact Hu.
Qed.

Lemma onTicks_entities (systemTimes : list Q) (app : Component.App) :
  Component.satelliteEntities (Component.onTicks systemTimes app)
  = Component.satelliteEntities app.
Proof.
  unfold Component.onTicks. revert app.
  induction systemTimes as [|w ws IH]; intros app; cbn [fold_left].
  - reflexivity.
  - rewrite IH. reflexivity.
Qed.

Lemma onTicks_clock (systemTimes : list Q) (app : Component.App) :
  Component.viewerClock (Component.onTicks systemTimes app)
  = option_map (Clock.ticks systemTimes) (Component.viewerClock app).
Proof.
  unfold Component.onTicks, Clock.ticks. revert app.
  induction systemTimes as [|w ws IH]; intros app; cbn [fold_left].
  - now destruct (Component.viewerClock app).
  - rewrite IH. cbn. now destruct (Component.viewerClock app).
Qed.

(** C10. The sampling parameters are constants of the build: the loop runs
    over the indices 0, 1, 2, 3 and the instant of index [i] is [i] hours
    after the captured start. Hence every trajectory has at most 4 epochs,
    all between the start and three hours later, for every element set;
    every set handed to the state setter is made of such trajectories;
    and the published entities stay the same under any number of ticks of
    the viewer's clock, whose time the ticks alone move. *)
Theorem C10_fixed_sampling_window (start : JulianDate.t) :
  sampleCount = 4%nat
  /\ (forall i : nat,
        sampleTime start i == start + inject_Z (Z.of_nat i) * 3600)
  /\ (forall tle : TleData,
        entityPosition (buildTrajectory start tle)
        = omap (sampleAt (twoline2satrec (line1 tle) (line2 tle)) start)
               [0; 1; 2; 3]%nat)
  /\ (forall tle : TleData, withinWindow start (buildTrajectory start tle))
  /\ (forall tleData : option (list TleData),
        Forall (Forall (withinWindow start))
               (setStates (calculateSatellitePositions start tleData)))
  /\ (forall (clock : Clock.t) (before : list SatelliteEntity)
             (tleData : list TleData) (systemTimes : list Q),
        let app :=
          Component.onTicks systemTimes
            (Component.onTleData start (Some tleData)
               (Component.mkApp (Some clock) before)) in
        Component.satelliteEntities app = map (buildTrajectory start) tleData
        /\ Forall (withinWindow start) (Component.satelliteEntities app)
        /\ Component.viewerClock app
           = Some (Clock.ticks systemTimes (Clock.bindClock start clock))).
Proof.
  assert (forall tleData : list TleData,
             Forall (withinWindow start) (map (buildTrajectory start) tleData))
    as W.
  { intros tleData. apply Forall_map, Forall_forall.
    intros tle _. apply buildTrajectory_withinWindow. }
  split; [reflexivity|]. split; [intros i; reflexivity|].
  split; [apply buildTrajectory_omap|].
  split; [apply buildTrajectory_withinWindow|].
  split.
  - intros [tleData|]; cbn; [|constructor].
    constructor; [apply W|constructor].
  - intros clock before tleData systemTimes app. subst app.
    rewrite onTicks_entities, onTicks_clock. cbn.
    split; [reflexivity|]. split; [apply W|reflexivity].
Qed.
End Refresh.

(** An element set that never propagates is published all the same, as an
    entity without epochs, next to the one that has its four epochs, and
    nothing is written to the console. *)
Theorem C4_entity_without_epochs_is_published :
  let tleData := [Fixture.lost; Fixture.sat1] in
  let effects :=
    Sampled.calculateSatellitePositions (ext := Fixture.toy) 0%Q
      (Some tleData) in
  (forall i : nat,
      Sampled.sampleAt (ext := Fixture.toy)
        (twoline2satrec (line1 Fixture.lost) (line2 Fixture.lost)) 0%Q i
      = None)
  /\ map (map (fun e => (Sampled.entityName e,
                         length (Sampled.entityPosition e))))
         (setStates effects)
     = [[("LOST"%string, 0%nat); ("SAT-1"%string, 4%nat)]]
  /\ consoleErrors effects = [].
Proof. repeat split. Qed.

(** The live revision on the same element sets: the one that never
    propagates is reported on the console and only the other is handed to
    the state setter. *)
Lemma live_omits_the_lost_one :
  let w :=
    snd (Live.calculateSatellitePositions (ext := Fixture.toy)
           [Fixture.lost; Fixture.sat1] (Live.mkWorld 0 [])) in
  map (map Live.satelliteName) (setStates (Live.effects w))
  = [["SAT-1"%string]]
  /\ consoleErrors (Live.effects w)
     = ["Something is wrong with the data"%string].
Proof. split; reflexivity. Qed.

(** An array without records replaces a published set that was not empty. *)
Lemma C7_empty_array_replaces_last_good :
  let lastGood :=
    map (Sampled.buildTrajectory (ext := Fixture.toy) 0%Q) [Fixture.sat1] in
  let effects :=
    Sampled.calculateSatellitePositions (ext := Fixture.toy) 10800%Q
      (Some []) in
  lastGood <> []
  /\ published lastGood effects = []
  /\ consoleErrors effects = [].
Proof. repeat split. discriminate. Qed.

(** ** The position query *)

Section PositionQuery.
Import Interp.
Local Open Scope Q_scope.

Lemma compare_Eq (t u : Q) : t == u -> (t ?= u) = Eq.
Proof. apply Qeq_alt. Qed.

Lemma compare_Lt (t u : Q) : t < u -> (t ?= u) = Lt.
Proof. apply Qlt_alt. Qed.

Lemma compare_Gt (t u : Q) : u < t -> (t ?= u) = Gt.
Proof. apply Qgt_alt. Qed.

Lemma increasing_cons (e : SampleEpoch) (later : Trajectory) :
  increasing (e :: later) ->
  increasing later /\ Forall (fun e' => fst e < fst e') later.
Proof.
  unfold increasing. cbn [map]. intros H.
  apply StronglySorted_inv in H as [H1 H2]. split; [exact H1|].
  apply Forall_forall. intros e' Hin.
  rewrite List.Forall_forall in H2. apply H2, in_map, list_elem_of_In, Hin.
Qed.

(** Past the epoch [(t0, p0)], at the time of a later epoch, the query
    gives the position of that epoch. *)
Lemma interpolateFrom_exact (later : Trajectory) :
  forall (t0 : JulianDate.t) (p0 : RenderCoordinate)
         (t tk : JulianDate.t) (pk : RenderCoordinate),
    increasing ((t0, p0) :: later) ->
    In (tk, pk) later -> t == tk ->
    interpolateFrom t0 p0 later t = Some pk.
Proof.
  induction later as [|[t1 p1] later IH]; intros t0 p0 t tk pk Inc Hin Ht.
  - contradiction.
  - apply increasing_cons in Inc as [Inc _]. cbn [interpolateFrom].
    destruct Hin as [E|Hin].
    + inversion E; subst. now rewrite compare_Eq.
    + pose proof Inc as Inc'.
      apply increasing_cons in Inc' as [_ F].
      rewrite List.Forall_forall in F.
      specialize (F (tk, pk) Hin). cbn in F.
      rewrite compare_Gt by (rewrite Ht; exact F).
      now apply (IH t1 p1 t tk pk).
Qed.

Lemma positionAt_exact (trajectory : Trajectory)
    (t tk : JulianDate.t) (pk : RenderCoordinate) :
  increasing trajectory ->
  In (tk, pk) trajectory -> t == tk ->
  positionAt trajectory t = Some pk.
Proof.
  destruct trajectory as [|[t0 p0] later]; intros Inc Hin Ht.
  - contradiction.
  - cbn [positionAt]. destruct Hin as [E|Hin].
    + inversion E; subst. now rewrite compare_Eq.
    + pose proof Inc as Inc'.
      apply increasing_cons in Inc' as [_ F].
      rewrite List.Forall_forall in F.
      specialize (F (tk, pk) Hin). cbn in F.
      rewrite compare_Gt by (rewrite Ht; exact F).
      now apply (interpolateFrom_exact later t0 p0 t tk pk).
Qed.

(** Strictly inside the segment of two consecutive epochs the query is the
    linear interpolation of their positions. *)
Lemma interpolateFrom_bracket (pre post : Trajectory)
    (ta tb : JulianDate.t) (pa pb : RenderCoordinate) (t : JulianDate.t) :
  forall (t0 : JulianDate.t) (p0 : RenderCoordinate),
    increasing ((t0, p0) :: pre ++ (ta, pa) :: (tb, pb) :: post) ->
    ta < t -> t < tb ->
    interpolateFrom t0 p0 (pre ++ (ta, pa) :: (tb, pb) :: post) t
    = Some (lerp pa pb ((t - ta) / (tb - ta))).
Proof.
  induction pre as [|[t1 p1] pre IH]; intros t0 p0 Inc Ha Hb.
  - cbn [app interpolateFrom].
    now rewrite (compare_Gt t ta), (compare_Lt t tb).
  - cbn [app interpolateFrom].
    apply increasing_cons in Inc as [Inc _].
    pose proof Inc as Inc'.
    apply increasing_cons in Inc' as [_ F].
    rewrite List.Forall_forall in F.
    specialize (F (ta, pa) ltac:(apply in_or_app; right; left; reflexivity)).
    cbn in F.
    rewrite compare_Gt by lra. now apply IH.
Qed.

Lemma positionAt_bracket (pre post : Trajectory)
    (ta tb : JulianDate.t) (pa pb : RenderCoordinate) (t : JulianDate.t) :
  increasing (pre ++ (ta, pa) :: (tb, pb) :: post) ->
  ta < t -> t < tb ->
  positionAt (pre ++ (ta, pa) :: (tb, pb) :: post) t
  = Some (lerp pa pb ((t - ta) / (tb - ta))).
Proof.
  intros Inc Ha Hb. destruct pre as [|[t0 p0] pre].
  - cbn [app positionAt interpolateFrom].
    now rewrite (compare_Gt t ta), (compare_Lt t tb).
  - cbn [app positionAt].
    pose proof Inc as Inc'.
    apply increasing_cons in Inc' as [_ F].
    rewrite List.Forall_forall in F.
    specialize (F (ta, pa) ltac:(apply in_or_app; right; left; reflexivity)).
    cbn in F.
    rewrite compare_Gt by lra.
    now apply interpolateFrom_bracket.
Qed.

Lemma fraction_between (ta tb t : Q) :
  ta < t -> t < tb -> 0 < (t - ta) / (tb - ta) /\ (t - ta) / (tb - ta) < 1.
Proof.
  intros Ha Hb. split.
  - apply Qlt_shift_div_l; lra.
  - apply Qlt_shift_div_r; lra.
Qed.

Lemma lerp_strictlyBetween (pa pb : RenderCoordinate) (ta tb t : Q) :
  ta < t -> t < tb ->
  strictlyBetween pa pb (lerp pa pb ((t - ta) / (tb - ta))).
Proof.
  intros Ha Hb. exists ((t - ta) / (tb - ta)).
  destruct (fraction_between ta tb t Ha Hb) as [H0 H1].
  repeat split; try assumption; reflexivity.
Qed.

Lemma scaled_between (a b w : Q) :
  0 < w -> w < 1 ->
  (a < b -> a < a + w * (b - a) /\ a + w * (b - a) < b)
  /\ (b < a -> b < a + w * (b - a) /\ a + w * (b - a) < a).
Proof. intros H0 H1. split; intros H; split; nra. Qed.

(** A point strictly between two others lies, in every coordinate in which
    the two differ, strictly between their values. *)
Lemma strictlyBetween_coordinates (a b p : RenderCoordinate) :
  strictlyBetween a b p ->
  forall c : RenderCoordinate -> Q, In c [px; py; pz] ->
    (c a < c b -> c a < c p /\ c p < c b)
    /\ (c b < c a -> c b < c p /\ c p < c a).
Proof.
  intros [w [H0 [H1 [Ex [Ey Ez]]]]] c Hc. cbn in Ex, Ey, Ez.
  destruct Hc as [<-|[<-|[<-|[]]]].
  - rewrite Ex. now apply scaled_between.
  - rewrite Ey. now apply scaled_between.
  - rewrite Ez. now apply scaled_between.
Qed.

Lemma lastEpoch_In (trajectory : Trajectory) (e : SampleEpoch) :
  lastEpoch trajectory = Some e -> In e trajectory.
Proof. intros H. apply list_elem_of_In, last_Some_elem_of, H. Qed.

(** After the last epoch the query has no position. *)
Lemma interpolateFrom_after (later : Trajectory) :
  forall (t0 : JulianDate.t) (p0 : RenderCoordinate)
         (tN : JulianDate.t) (pN : RenderCoordinate) (t : JulianDate.t),
    increasing ((t0, p0) :: later) ->
    lastEpoch ((t0, p0) :: later) = Some (tN, pN) ->
    tN < t ->
    interpolateFrom t0 p0 later t = None.
Proof.
  unfold lastEpoch.
  induction later as [|[t1 p1] later IH]; intros t0 p0 tN pN t Inc L Ht.
  - reflexivity.
  - rewrite last_cons_cons in L. cbn [interpolateFrom].
    apply increasing_cons in Inc as [Inc _].
    assert (t1 <= tN) as Hle.
    { apply last_Some_elem_of, list_elem_of_In in L. destruct L as [E|Hin].
      - inversion E. apply Qle_refl.
      - apply increasing_cons in Inc as [_ F].
        rewrite List.Forall_forall in F.
        specialize (F (tN, pN) Hin). cbn in F. lra. }
    rewrite compare_Gt by lra. now apply (IH t1 p1 tN pN).
Qed.

(** A time within the sampled window is the time of an epoch or lies
    strictly inside the segment of two consecutive epochs. *)
Lemma epoch_or_bracket (later : Trajectory) :
  forall (t0 : JulianDate.t) (p0 : RenderCoordinate)
         (tN : JulianDate.t) (pN : RenderCoordinate) (t : JulianDate.t),
    increasing ((t0, p0) :: later) ->
    lastEpoch ((t0, p0) :: later) = Some (tN, pN) ->
    t0 <= t -> t <= tN ->
    (exists tk pk, In (tk, pk) ((t0, p0) :: later) /\ t == tk)
    \/ (exists pre ta pa tb pb post,
           (t0, p0) :: later = pre ++ (ta, pa) :: (tb, pb) :: post
           /\ ta < t /\ t < tb).
Proof.
  unfold lastEpoch.
  induction later as [|[t1 p1] later IH]; intros t0 p0 tN pN t Inc L H0 HN.
  - cbn in L. inversion L; subst. left. exists tN, pN.
    split; [now left|]. now apply Qle_antisym.
  - rewrite last_cons_cons in L.
    destruct (Qlt_le_dec t t1) as [Lt1|Ge1].
    + destruct (Qeq_dec t t0) as [E0|N0].
      * left. exists t0, p0. split; [now left|exact E0].
      * right. exists [], t0, p0, t1, p1, later.
        split; [reflexivity|]. split; [|exact Lt1].
        apply Qle_lteq in H0 as [H0|H0]; [exact H0|].
        exfalso. apply N0. now symmetry.
    + apply increasing_cons in Inc as [Inc _].
      destruct (IH t1 p1 tN pN t Inc L Ge1 HN)
        as [[tk [pk [Hin Hk]]]|[pre [ta [pa [tb [pb [post [E [Ha Hb]]]]]]]]].
      * left. exists tk, pk. split; [now right|exact Hk].
      * right. exists ((t0, p0) :: pre), ta, pa, tb, pb, post.
        split; [cbn [app]; f_equal; exact E|auto].
Qed.

Lemma epoch_or_bracket_within (trajectory : Trajectory)
    (t0 tN : JulianDate.t) (p0 pN : RenderCoordinate) (t : JulianDate.t) :
  increasing trajectory ->
  firstEpoch trajectory = Some (t0, p0) ->
  lastEpoch trajectory = Some (tN, pN) ->
  t0 <= t -> t <= tN ->
  (exists tk pk, In (tk, pk) trajectory /\ t == tk)
  \/ (exists pre ta pa tb pb post,
         trajectory = pre ++ (ta, pa) :: (tb, pb) :: post
         /\ ta < t /\ t < tb).
Proof.
  intros Inc F L H0 HN.
  destruct trajectory as [|[t0' p0'] later]; [discriminate|].
  cbn in F. inversion F; subst t0' p0'.
  exact (epoch_or_bracket later t0 p0 tN pN t Inc L H0 HN).
Qed.

Lemma firstEpoch_le_lastEpoch (trajectory : Trajectory)
    (t0 tN : JulianDate.t) (p0 pN : RenderCoordinate) :
  increasing trajectory ->
  firstEpoch trajectory = Some (t0, p0) ->
  lastEpoch trajectory = Some (tN, pN) ->
  t0 <= tN.
Proof.
  intros Inc F L.
  destruct trajectory as [|[t0' p0'] later]; [discriminate|].
  cbn in F. inversion F; subst t0' p0'.
  apply lastEpoch_In in L. destruct L as [E|Hin].
  - inversion E. apply Qle_refl.
  - apply increasing_cons in Inc as [_ G].
    rewrite List.Forall_forall in G.
    specialize (G (tN, pN) Hin). cbn in G. lra.
Qed.

(** C2. For every trajectory with strictly increasing epoch times and
    every query time between the first and the last of them: at the time
    of an epoch the query returns the position stored for that epoch; at
    any other time the query time lies strictly inside the segment of two
    consecutive epochs and the query returns the linear interpolation, in
    Cartesian space, of their two positions, a point of the segment
    between them at a fraction strictly between 0 and 1, which in every
    coordinate where the two positions differ lies strictly between their
    values. *)
Theorem C2_positionAt_within_window
    (trajectory : Trajectory) (t0 tN : JulianDate.t)
    (p0 pN : RenderCoordinate) (t : JulianDate.t) :
  increasing trajectory ->
  firstEpoch trajectory = Some (t0, p0) ->
  lastEpoch trajectory = Some (tN, pN) ->
  t0 <= t -> t <= tN ->
  (forall (tk : JulianDate.t) (pk : RenderCoordinate),
      In (tk, pk) trajectory -> t == tk ->
      positionAt trajectory t = Some pk)
  /\ ((forall (tk : JulianDate.t) (pk : RenderCoordinate),
         In (tk, pk) trajectory -> ~ t == tk) ->
      exists pre ta pa tb pb post,
        trajectory = pre ++ (ta, pa) :: (tb, pb) :: post
        /\ ta < t /\ t < tb
        /\ positionAt trajectory t
           = Some (lerp pa pb ((t - ta) / (tb - ta)))
        /\ strictlyBetween pa pb (lerp pa pb ((t - ta) / (tb - ta)))
        /\ (forall c : RenderCoordinate -> Q, In c [px; py; pz] ->
              let p := lerp pa pb ((t - ta) / (tb - ta)) in
              (c pa < c pb -> c pa < c p /\ c p < c pb)
              /\ (c pb < c pa -> c pb < c p /\ c p < c pa))).
Proof.
  intros Inc F L H0 HN. split.
  - intros tk pk Hin Hk. now apply (positionAt_exact trajectory t tk pk).
  - intros Off.
    destruct (epoch_or_bracket_within trajectory t0 tN p0 pN t Inc F L H0 HN)
      as [[tk [pk [Hin Hk]]]|[pre [ta [pa [tb [pb [post [E [Ha Hb]]]]]]]]].
    + exfalso. exact (Off tk pk Hin Hk).
    + exists pre, ta, pa, tb, pb, post.
      split; [exact E|]. split; [exact Ha|]. split; [exact Hb|].
      split; [|split].
      * subst trajectory. now apply positionAt_bracket.
      * now apply lerp_strictlyBetween.
      * intros c Hc p. apply strictlyBetween_coordinates; [|exact Hc].
        now apply lerp_strictlyBetween.
Qed.

(** C3, as the code has it. For every trajectory with strictly increasing
    epoch times, first epoch [(t0, p0)] and last epoch [(tN, pN)]: a query
    before [t0] or after [tN] gives no position, nothing is clamped and
    nothing is extrapolated; the queries at [t0] and at [tN] give the
    positions [p0] and [pN]; and a query gives no position exactly when its
    time is outside the sampled window. *)
Theorem C3_positionAt_outside_window
    (trajectory : Trajectory) (t0 tN : JulianDate.t)
    (p0 pN : RenderCoordinate) (t : JulianDate.t) :
  increasing trajectory ->
  firstEpoch trajectory = Some (t0, p0) ->
  lastEpoch trajectory = Some (tN, pN) ->
  (t < t0 -> positionAt trajectory t = None)
  /\ (tN < t -> positionAt trajectory t = None)
  /\ positionAt trajectory t0 = Some p0
  /\ positionAt trajectory tN = Some pN
  /\ (positionAt trajectory t = None <-> t < t0 \/ tN < t).
Proof.
  intros Inc F L.
  assert (positionAt trajectory tN = Some pN) as EN.
  { apply (positionAt_exact trajectory tN tN pN Inc); [|reflexivity].
    now apply lastEpoch_In. }
  pose proof (firstEpoch_le_lastEpoch trajectory t0 tN p0 pN Inc F L) as Hle.
  assert (t < t0 -> positionAt trajectory t = None) as Before.
  { destruct trajectory as [|[t0' p0'] later]; [discriminate|].
    cbn in F. inversion F; subst t0' p0'. intros Ht. cbn [positionAt].
    now rewrite (compare_Lt t t0 Ht). }
  assert (tN < t -> positionAt trajectory t = None) as After.
  { destruct trajectory as [|[t0' p0'] later]; [discriminate|].
    cbn in F. inversion F; subst t0' p0'. intros Ht. cbn [positionAt].
    rewrite compare_Gt by lra.
    exact (interpolateFrom_after later t0 p0 tN pN t Inc L Ht). }
  split; [exact Before|]. split; [exact After|]. split; [|split; [exact EN|]].
  - destruct trajectory as [|[t0' p0'] later]; [discriminate|].
    cbn in F. inversion F; subst t0' p0'. cbn [positionAt].
    now rewrite (compare_Eq t0 t0 (Qeq_refl t0)).
  - split; [|intros [Ht|Ht]; auto].
    intros N.
    destruct (Qlt_le_dec t t0) as [Lt0|Ge0]; [now left|].
    destruct (Qlt_le_dec tN t) as [GtN|LeN]; [now right|].
    exfalso.
    destruct (epoch_or_bracket_within trajectory t0 tN p0 pN t Inc F L Ge0 LeN)
      as [[tk [pk [Hin Hk]]]|[pre [ta [pa [tb [pb [post [E [Ha Hb]]]]]]]]].
    + rewrite (positionAt_exact trajectory t tk pk Inc Hin Hk) in N.
      discriminate.
    + assert (positionAt trajectory t
              = Some (lerp pa pb ((t - ta) / (tb - ta)))) as Br
        by (subst trajectory; now apply positionAt_bracket).
      rewrite Br in N. discriminate.
Qed.
End PositionQuery.

Lemma sat1Trajectory_increasing : Interp.increasing Fixture.sat1Trajectory.
Proof.
  unfold Interp.increasing.
  change (map fst Fixture.sat1Trajectory)
    with (Sampled.epochTimes
            (Sampled.entityPosition
               (Sampled.buildTrajectory (ext := Fixture.toy) 0%Q Fixture.sat1))).
  rewrite buildTrajectory_omap. apply epochTimes_increasing.
Qed.

Lemma C2_positionAt_within_window_witness :
  let t := 1800%Q in
  (forall (tk : JulianDate.t) (pk : Interp.RenderCoordinate),
      In (tk, pk) Fixture.sat1Trajectory -> (t == tk)%Q ->
      Interp.positionAt Fixture.sat1Trajectory t = Some pk)
  /\ ((forall (tk : JulianDate.t) (pk : Interp.RenderCoordinate),
         In (tk, pk) Fixture.sat1Trajectory -> ~ (t == tk)%Q) ->
      exists pre ta pa tb pb post,
        Fixture.sat1Trajectory = pre ++ (ta, pa) :: (tb, pb) :: post
        /\ (ta < t)%Q /\ (t < tb)%Q
        /\ Interp.positionAt Fixture.sat1Trajectory t
           = Some (Interp.lerp pa pb ((t - ta) / (tb - ta))%Q)
        /\ Interp.strictlyBetween pa pb
             (Interp.lerp pa pb ((t - ta) / (tb - ta))%Q)
        /\ (forall c : Interp.RenderCoordinate -> Q,
              In c [Interp.px; Interp.py; Interp.pz] ->
              let p := Interp.lerp pa pb ((t - ta) / (tb - ta))%Q in
              ((c pa < c pb)%Q -> (c pa < c p)%Q /\ (c p < c pb)%Q)
              /\ ((c pb < c pa)%Q -> (c pb < c p)%Q /\ (c p < c pa)%Q))).
Proof.
  apply (C2_positionAt_within_window Fixture.sat1Trajectory 0%Q 10800%Q
           (Fixture.sat1At 0) (Fixture.sat1At 10800) 1800%Q).
  - exact sat1Trajectory_increasing.
  - reflexivity.
  - reflexivity.
  - discriminate.
  - discriminate.
Defined.

Lemma C3_positionAt_outside_window_witness :
  let t := (-60)%Q in
  ((t < 0)%Q -> Interp.positionAt Fixture.sat1Trajectory t = None)
  /\ ((10800 < t)%Q -> Interp.positionAt Fixture.sat1Trajectory t = None)
  /\ Interp.positionAt Fixture.sat1Trajectory 0%Q = Some (Fixture.sat1At 0)
  /\ Interp.positionAt Fixture.sat1Trajectory 10800%Q
     = Some (Fixture.sat1At 10800)
  /\ (Interp.positionAt Fixture.sat1Trajectory t = None
      <-> (t < 0)%Q \/ (10800 < t)%Q).
Proof.
  apply (C3_positionAt_outside_window Fixture.sat1Trajectory 0%Q 10800%Q
           (Fixture.sat1At 0) (Fixture.sat1At 10800) (-60)%Q).
  - exact sat1Trajectory_increasing.
  - reflexivity.
  - reflexivity.
Defined.

(** A minute before the first epoch and a day after the start the query
    has no position, while at the first and at the last epoch it has
    one: the queries outside the window do not equal the queries at its
    ends. *)
Lemma C3_no_position_outside_window :
  Interp.positionAt Fixture.sat1Trajectory (-60)%Q = None
  /\ Interp.positionAt Fixture.sat1Trajectory 0%Q = Some (Fixture.sat1At 0)
  /\ Interp.positionAt Fixture.sat1Trajectory (-60)%Q
     <> Interp.positionAt Fixture.sat1Trajectory 0%Q
  /\ Interp.positionAt Fixture.sat1Trajectory 86400%Q = None
  /\ Interp.positionAt Fixture.sat1Trajectory 10800%Q
     = Some (Fixture.sat1At 10800)
  /\ Interp.positionAt Fixture.sat1Trajectory 86400%Q
     <> Interp.positionAt Fixture.sat1Trajectory 10800%Q.
Proof. repeat split; discriminate. Qed.

(** The query half an hour after the start is half way between the first two
    epochs. *)
Lemma sat1_midpoint :
  let half := ((1800 - 0) / (3600 - 0))%Q in
  Interp.positionAt Fixture.sat1Trajectory 1800%Q
  = Some (Interp.lerp (Fixture.sat1At 0) (Fixture.sat1At 3600) half)
  /\ Interp.sameCoordinate
       (Interp.lerp (Fixture.sat1At 0) (Fixture.sat1At 3600) half)
       (Fixture.sat1At 1800).
Proof. split; [reflexivity|]. repeat split. Qed.

(** ** The clock binding *)

Section ClockBinding.
Import Clock.
Local Open Scope Q_scope.

Lemma bindClock_normal (start : JulianDate.t) (clock : Clock.t) :
  normalOperation (bindClock start clock).
Proof. repeat split. Qed.

Lemma tick_normal (w : Q) (clock : Clock.t) :
  normalOperation clock -> normalOperation (tick w clock).
Proof. intros [R [M A]]. repeat split; assumption. Qed.

Lemma tick_lastSystemTime (w : Q) (clock : Clock.t) :
  lastSystemTime (tick w clock) = w.
Proof. reflexivity. Qed.

(** In normal operation a tick moves simulation time by the wall-clock
    time elapsed since the tick before. *)
Lemma tick_now (w : Q) (clock : Clock.t) :
  normalOperation clock ->
  now (tick w clock) == now clock + (w - lastSystemTime clock).
Proof.
  intros [R [M A]]. unfold now, tick, bounded. cbn [currentTime].
  rewrite A, R, M. ring.
Qed.

Lemma ticks_snoc (systemTimes : list Q) (w : Q) (clock : Clock.t) :
  ticks (systemTimes ++ [w]) clock = tick w (ticks systemTimes clock).
Proof. unfold ticks. now rewrite fold_left_app. Qed.

(** The distance between simulation time and the wall clock of the latest
    tick never changes in normal operation. *)
Lemma ticks_offset (systemTimes : list Q) (clock : Clock.t) :
  normalOperation clock ->
  now (ticks systemTimes clock) - lastSystemTime (ticks systemTimes clock)
  == now clock - lastSystemTime clock.
Proof.
  revert clock. induction systemTimes as [|w ws IH]; intros clock N.
  - reflexivity.
  - change (ticks (w :: ws) clock) with (ticks ws (tick w clock)).
    rewrite (IH (tick w clock) (tick_normal w clock N)).
    rewrite (tick_now w clock N), tick_lastSystemTime. ring.
Qed.

Lemma ticks_lastSystemTime_le (systemTimes : list Q) (w : Q) :
  forall clock : Clock.t,
    nondecreasing (lastSystemTime clock) (systemTimes ++ [w]) ->
    lastSystemTime (ticks systemTimes clock) <= w.
Proof.
  induction systemTimes as [|a ws IH]; intros clock [H1 H2].
  - exact H1.
  - apply (IH (tick a clock)). exact H2.
Qed.

Lemma ticks_lastSystemTime_ge (systemTimes : list Q) :
  forall clock : Clock.t,
    nondecreasing (lastSystemTime clock) systemTimes ->
    lastSystemTime clock <= lastSystemTime (ticks systemTimes clock).
Proof.
  induction systemTimes as [|a ws IH]; intros clock H.
  - apply Qle_refl.
  - destruct H as [H1 H2].
    apply Qle_trans with a; [exact H1|].
    apply (IH (tick a clock)). exact H2.
Qed.

Lemma nondecreasing_prefix (from : Q) (systemTimes more : list Q) :
  nondecreasing from (systemTimes ++ more) -> nondecreasing from systemTimes.
Proof.
  revert from. induction systemTimes as [|a ws IH]; intros from H.
  - exact I.
  - destruct H as [H1 H2]. split; [exact H1|]. now apply IH.
Qed.

(** C9. The clock bound by the component (unbounded range, multiplier 1,
    animating), ticked at wall-clock readings that never go back: after
    the tick at the reading [systemTime] simulation time is the start plus
    the wall-clock time elapsed since the binding, whichever and however
    many ticks came in between, none included; hence simulation time
    never decreases from one tick to the next and never falls below the
    start. *)
Theorem C9_clock_follows_wall_clock
    (start : JulianDate.t) (clock : Clock.t)
    (systemTimes : list Q) (systemTime : Q) :
  let bound := bindClock start clock in
  nondecreasing (lastSystemTime clock) (systemTimes ++ [systemTime]) ->
  normalOperation bound
  /\ now (ticks (systemTimes ++ [systemTime]) bound)
     == start + (systemTime - lastSystemTime clock)
  /\ (forall others : list Q,
        now (ticks (others ++ [systemTime]) bound)
        == now (ticks (systemTimes ++ [systemTime]) bound))
  /\ now (ticks (systemTimes ++ [systemTime]) bound)
     == now (ticks [systemTime] bound)
  /\ now (ticks systemTimes bound)
     <= now (ticks (systemTimes ++ [systemTime]) bound)
  /\ start <= now (ticks systemTimes bound).
Proof.
  intros bound Mono.
  pose proof (bindClock_normal start clock) as N. fold bound in N.
  assert (forall ws : list Q,
             now (ticks ws bound)
             == start + (lastSystemTime (ticks ws bound)
                         - lastSystemTime clock)) as Off.
  { intros ws. pose proof (ticks_offset ws bound N) as O.
    change (now bound) with start in O.
    change (lastSystemTime bound) with (lastSystemTime clock) in O.
    lra. }
  assert (forall ws : list Q,
             now (ticks (ws ++ [systemTime]) bound)
             == start + (systemTime - lastSystemTime clock)) as Last.
  { intros ws. rewrite Off, ticks_snoc, tick_lastSystemTime. reflexivity. }
  split; [exact N|]. split; [apply Last|].
  split; [intros others; now rewrite !Last|].
  split; [now rewrite (Last systemTimes), (Last [])|].
  split.
  - rewrite Last, Off.
    pose proof (ticks_lastSystemTime_le systemTimes systemTime bound Mono).
    lra.
  - rewrite Off.
    pose proof (ticks_lastSystemTime_ge systemTimes bound
                  (nondecreasing_prefix _ _ _ Mono)) as G.
    change (lastSystemTime bound) with (lastSystemTime clock) in G.
    lra.
Qed.
End ClockBinding.

Lemma C9_clock_follows_wall_clock_witness :
  let clock := Clock.mkClock 0%Q 0%Q 0%Q Clock.CLAMPED 5%Q false 100%Q in
  let bound := Clock.bindClock 1000%Q clock in
  Clock.normalOperation bound
  /\ (Clock.now (Clock.ticks ([101; 105] ++ [160]) bound)
      == 1000 + (160 - Clock.lastSystemTime clock))%Q
  /\ (forall others : list Q,
        Clock.now (Clock.ticks (others ++ [160%Q]) bound)
        == Clock.now (Clock.ticks ([101; 105] ++ [160]) bound))%Q
  /\ (Clock.now (Clock.ticks ([101; 105] ++ [160]) bound)
      == Clock.now (Clock.ticks [160] bound))%Q
  /\ (Clock.now (Clock.ticks [101; 105] bound)
      <= Clock.now (Clock.ticks ([101; 105] ++ [160]) bound))%Q
  /\ (1000 <= Clock.now (Clock.ticks [101; 105] bound))%Q.
Proof.
  apply (C9_clock_follows_wall_clock 1000%Q
           (Clock.mkClock 0%Q 0%Q 0%Q Clock.CLAMPED 5%Q false 100%Q)
           [101; 105]%Q 160%Q).
  cbn. repeat split; discriminate.
Defined.

(** ** Publication *)

Section Publication.
Context {ext : Collaborators}.
Import Machine.

Variable start : JulianDate.t.
Variable tleData : option (list TleData).

Lemma preserved_refl (s : state) : preserved s s.
Proof. split; [lia|reflexivity]. Qed.

Lemma built_weaken (s0 : state) (bound bound' : nat)
    (objects objects' : list Sampled.SampledPositionProperty)
    (entities : list EntityRef) (done : list TleData) :
  (bound <= bound')%nat ->
  (forall r : nat, (r < bound)%nat -> objects' !! r = objects !! r) ->
  built start s0 bound objects entities done ->
  built start s0 bound' objects' entities done.
Proof.
  intros Hb Hl B. eapply Forall2_impl; [exact B|].
  cbn beta. intros e tle [Hn [Hr Ho]].
  split; [exact Hn|]. split; [lia|]. rewrite Hl by lia. exact Ho.
Qed.

(** Finished entities are seen as the trajectories built by value. *)
Lemma built_snapshot (s0 : state) (bound : nat)
    (objects : list Sampled.SampledPositionProperty)
    (entities : list EntityRef) (done : list TleData) :
  built start s0 bound objects entities done ->
  map (fun e => (refName e, objects !! refPosition e)) entities
  = snapshot (map (Sampled.buildTrajectory start) done).
Proof.
  induction 1 as [|e tle entities done [Hn [_ Ho]] _ IH]; cbn.
  - reflexivity.
  - rewrite Hn, Ho, IH. reflexivity.
Qed.

Lemma invariant_start (s0 : state) :
  at_ s0 = AtGuard -> invariant start tleData s0 s0.
Proof.
  intros A. split; [apply preserved_refl|]. now rewrite A.
Qed.

Lemma step_invariant (s0 s s' : state) :
  invariant start tleData s0 s ->
  step start tleData s = Some s' ->
  invariant start tleData s0 s'.
Proof.
  destruct s as [objects pub ctl]. intros [[Pl Pr] I]. unfold step.
  cbn [at_ store satelliteEntities] in *.
  destruct ctl as [|pending entities
                   |tleName satrec r i pending entities|].
  - (* the guard *)
    subst s0. cbn [store] in *.
    destruct tleData as [l|] eqn:T; intros E; inversion E; subst s'.
    + split; [split; [exact Pl|exact Pr]|]. cbn [at_ store satelliteEntities].
      split; [reflexivity|]. exists []. split; [reflexivity|constructor].
    + split; [split; [exact Pl|exact Pr]|]. cbn [at_ store satelliteEntities].
      left. auto.
  - (* between two element sets *)
    destruct I as [Hpub [done [T B]]].
    destruct pending as [|tle pending]; intros E; inversion E; subst s'.
    + split; [split; [exact Pl|exact Pr]|].
      cbn [at_ store satelliteEntities]. right.
      exists done. split; [now rewrite app_nil_r in T|exact B].
    + split.
      * split; cbn [store].
        -- rewrite length_app. lia.
        -- intros r Hr. rewrite lookup_app_l by lia. now apply Pr.
      * cbn [at_ store satelliteEntities].
        split; [exact Hpub|]. exists done, tle.
        split; [exact T|]. split; [reflexivity|]. split; [reflexivity|].
        split; [lia|]. split; [exact Pl|].
        split; [rewrite length_app; cbn; lia|].
        split; [now apply list_lookup_middle|].
        apply (built_weaken s0 (length objects) (length objects) objects);
          [lia| |exact B].
        intros r Hr. now rewrite lookup_app_l.
  - (* inside the loop *)
    destruct I
      as [Hpub [done [tle [T [Hn [Hs [Hi [Hbase [Hlen [Hobj B]]]]]]]]]].
    destruct (i <? Sampled.sampleCount)%nat eqn:C;
      intros E; inversion E; subst s'.
    + apply Nat.ltb_lt in C. split.
      * split; cbn [store].
        -- rewrite length_alter. exact Pl.
        -- intros r' Hr'. rewrite list_lookup_alter_ne by lia. now apply Pr.
      * cbn [at_ store satelliteEntities].
        split; [exact Hpub|]. exists done, tle.
        split; [exact T|]. split; [exact Hn|]. split; [exact Hs|].
        split; [lia|]. split; [exact Hbase|].
        split; [now rewrite length_alter|].
        split.
        -- rewrite list_lookup_alter_eq, Hobj. cbn [fmap option_fmap option_map].
           now rewrite sampleLoop_snoc.
        -- apply (built_weaken s0 r r objects); [lia| |exact B].
           intros r' Hr'. apply list_lookup_alter_ne. lia.
    + apply Nat.ltb_ge in C. assert (i = Sampled.sampleCount) as -> by lia.
      split; [split; [exact Pl|exact Pr]|]. cbn [at_ store satelliteEntities].
      split; [exact Hpub|]. exists (done ++ [tle]).
      split; [now rewrite <- app_assoc|].
      apply Forall2_app.
      * apply (built_weaken s0 r (length objects) objects objects);
          [lia|reflexivity|exact B].
      * constructor; [|constructor]. cbn.
        split; [exact Hn|]. split; [lia|]. rewrite Hobj, Hs. reflexivity.
  - discriminate.
Qed.

Lemma run_invariant (fuel : nat) :
  forall s0 s : state,
    invariant start tleData s0 s ->
    invariant start tleData s0 (run start tleData fuel s).
Proof.
  induction fuel as [|fuel IH]; intros s0 s I; cbn [run].
  - exact I.
  - destruct (step start tleData s) as [s'|] eqn:E; [|exact I].
    apply IH. now apply (step_invariant s0 s s').
Qed.

Lemma step_stepsLeft (s s' : state) :
  step start tleData s = Some s' ->
  stepsLeft tleData s = S (stepsLeft tleData s').
Proof.
  destruct s as [objects pub ctl]. unfold step, stepsLeft, enoughFuel.
  cbn [at_ store satelliteEntities]. unfold Sampled.sampleCount.
  destruct ctl as [|pending entities
                   |tleName satrec r i pending entities|].
  - destruct tleData as [l|]; intros E; inversion E; cbn [at_]; lia.
  - destruct pending as [|tle pending]; intros E; inversion E;
      cbn [at_ length]; lia.
  - destruct (Nat.ltb_spec i 4); intros E; inversion E; cbn [at_]; lia.
  - discriminate.
Qed.

Lemma step_None (s : state) :
  step start tleData s = None -> at_ s = Returned.
Proof.
  destruct s as [objects pub ctl]. unfold step.
  cbn [at_ store satelliteEntities].
  destruct ctl as [|pending entities
                   |tleName satrec r i pending entities|];
    [destruct tleData|destruct pending
     |destruct (i <? Sampled.sampleCount)%nat|];
    try discriminate; reflexivity.
Qed.

(** The run returns, within the steps left. *)
Lemma run_returns (fuel : nat) :
  forall s : state,
    (stepsLeft tleData s <= fuel)%nat ->
    at_ (run start tleData fuel s) = Returned.
Proof.
  induction fuel as [|fuel IH]; intros s Hs; cbn [run].
  - destruct (step start tleData s) as [s'|] eqn:E.
    + apply step_stepsLeft in E. lia.
    + now apply step_None.
  - destruct (step start tleData s) as [s'|] eqn:E.
    + apply IH. apply step_stepsLeft in E. lia.
    + now apply step_None.
Qed.

(** While the published entities and their objects are those of [s0], a
    reader sees what it saw in [s0]. *)
Lemma observe_preserved (s0 s : state) :
  wellFormed s0 -> preserved s0 s ->
  satelliteEntities s = satelliteEntities s0 ->
  observe s = observe s0.
Proof.
  intros W [_ Pr] E. unfold observe. rewrite E.
  unfold wellFormed in W. rewrite List.Forall_forall in W.
  apply map_ext_in. intros e Hin. f_equal. apply Pr, W, Hin.
Qed.

Lemma invariant_observe (s0 s : state) :
  wellFormed s0 ->
  invariant start tleData s0 s ->
  In (observe s)
     (observe s0
      :: map snapshot
           (setStates (Sampled.calculateSatellitePositions start tleData))).
Proof.
  intros W [P I].
  destruct (at_ s) as [|pending entities
                       |tleName satrec r i pending entities|].
  - left. now subst s.
  - left. symmetry. apply observe_preserved; tauto.
  - left. symmetry. apply observe_preserved; tauto.
  - destruct I as [[T E]|[done [T B]]].
    + left. symmetry. now apply observe_preserved.
    + right. rewrite T. cbn. left. symmetry.
      exact (built_snapshot s0 _ _ _ _ B).
Qed.

(** No step changes an object that the published entities refer to. *)
Lemma step_keeps_published (s0 s s' : state) :
  wellFormed s0 ->
  invariant start tleData s0 s ->
  step start tleData s = Some s' ->
  forall e : EntityRef,
    In e (satelliteEntities s) ->
    store s' !! refPosition e = store s !! refPosition e.
Proof.
  intros W I E e Hin.
  pose proof (step_invariant s0 s s' I E) as [[_ P'] _].
  destruct I as [[_ P] I].
  assert (satelliteEntities s = satelliteEntities s0) as Pub.
  { destruct (at_ s) eqn:A.
    - now subst s.
    - tauto.
    - tauto.
    - unfold step in E. rewrite A in E. discriminate. }
  rewrite Pub in Hin. unfold wellFormed in W.
  rewrite List.Forall_forall in W. specialize (W e Hin). cbn beta in W.
  now rewrite P', P.
Qed.

(** C8. A run of the refresh from a state [s0] whose published entities
    refer to objects of the store, observed after any number of steps: the
    reader sees either exactly what it saw in [s0] or exactly the set that
    the refresh hands to the state setter, every entity of it with its
    finished trajectory; no step changes an object that the entities
    published at that moment refer to; and the run returns, with the set
    handed to the setter in view if there is one and with the view of
    [s0] otherwise. *)
Theorem C8_publication_is_atomic (s0 : state) (fuel : nat) :
  at_ s0 = AtGuard ->
  wellFormed s0 ->
  let s := run start tleData fuel s0 in
  let final := run start tleData (enoughFuel tleData) s0 in
  In (observe s)
     (observe s0
      :: map snapshot
           (setStates (Sampled.calculateSatellitePositions start tleData)))
  /\ (forall s' : state,
        step start tleData s = Some s' ->
        forall e : EntityRef,
          In e (satelliteEntities s) ->
          store s' !! refPosition e = store s !! refPosition e)
  /\ at_ final = Returned
  /\ observe final
     = match tleData with
       | None => observe s0
       | Some records =>
           snapshot (map (Sampled.buildTrajectory start) records)
       end.
Proof.
  intros A W s final.
  pose proof (run_invariant fuel s0 s0 (invariant_start s0 A)) as I.
  pose proof (run_invariant (enoughFuel tleData) s0 s0 (invariant_start s0 A))
    as If.
  fold s in I. fold final in If.
  assert (at_ final = Returned) as R.
  { apply run_returns. unfold stepsLeft. rewrite A. lia. }
  split; [now apply invariant_observe|].
  split; [intros s' E; now apply (step_keeps_published s0 s s')|].
  split; [exact R|].
  destruct If as [P If]. rewrite R in If.
  destruct If as [[T E]|[done [T B]]]; rewrite T.
  - now apply observe_preserved.
  - exact (built_snapshot s0 _ _ _ _ B).
Qed.
End Publication.

Lemma C8_publication_is_atomic_witness :
  let start := 3600%Q in
  let tleData := Some [Fixture.lost; Fixture.sat1] in
  let s0 :=
    Machine.mkState (ext := Fixture.toy) [Fixture.sat1Trajectory]
      [Machine.mkRef "SAT-1" 0] Machine.AtGuard in
  let s := Machine.run start tleData 9 s0 in
  let final := Machine.run start tleData (Machine.enoughFuel tleData) s0 in
  In (Machine.observe s)
     (Machine.observe s0
      :: map Machine.snapshot
           (setStates (Sampled.calculateSatellitePositions start tleData)))
  /\ (forall s' : Machine.state,
        Machine.step start tleData s = Some s' ->
        forall e : Machine.EntityRef,
          In e (Machine.satelliteEntities s) ->
          Machine.store s' !! Machine.refPosition e
          = Machine.store s !! Machine.refPosition e)
  /\ Machine.at_ final = Machine.Returned
  /\ Machine.observe final
     = Machine.snapshot
         (map (Sampled.buildTrajectory start) [Fixture.lost; Fixture.sat1]).
Proof.
  apply (C8_publication_is_atomic (ext := Fixture.toy) 3600%Q
           (Some [Fixture.lost; Fixture.sat1])
           (Machine.mkState (ext := Fixture.toy) [Fixture.sat1Trajectory]
              [Machine.mkRef "SAT-1" 0] Machine.AtGuard)
           9).
  - reflexivity.
  - constructor; [cbn; lia|constructor].
Defined.

(* ================================================================== *)
(** * Part III. Further properties of the two revisions *)
(* ================================================================== *)

(** ** The sampled revision: trajectories and what is rendered *)

Section SampledFurther.
Context {ext : Collaborators}.
Import Sampled.
Local Open Scope Q_scope.





Lemma sampleAt_passes (satrec : Satrec) (start : JulianDate.t) (i : nat) :
  positionGuard (position (propagate satrec (toDate (sampleTime start i))))
  = match sampleAt satrec start i with Some _ => true | None => false end.
Proof.
  unfold sampleAt.
  destruct (position _) as [b|v].
  - rewrite guarded_boolean. now destruct b.
  - now rewrite guarded_vector.
Qed.

Lemma omap_length_filter (satrec : Satrec) (start : JulianDate.t)
    (indices : list nat) :
  length (omap (sampleAt satrec start) indices)
  = length
      (List.filter
         (fun i =>
            positionGuard
              (position (propagate satrec (toDate (sampleTime start i)))))
         indices).
Proof.
  induction indices as [|i rest IH]; [reflexivity|].
  cbn [List.filter]. rewrite sampleAt_passes. cbn.
  destruct (sampleAt satrec start i); cbn; now rewrite IH.
Qed.

(** A trajectory has as many epochs as there are indices among 0 .. 3 whose
    propagated position passes the guard; it has no epoch exactly when none
    of the four passes. *)
Theorem epochs_count_passing_indices (start : JulianDate.t) (tle : TleData) :
  let satrec := twoline2satrec (line1 tle) (line2 tle) in
  let passes := fun i : nat =>
    positionGuard (position (propagate satrec (toDate (sampleTime start i)))) in
  let trajectory := entityPosition (buildTrajectory start tle) in
  length trajectory = length (List.filter passes (seq 0 sampleCount))
  /\ (trajectory = []
      <-> forall i : nat, (i < sampleCount)%nat -> passes i = false).
Proof.
  intros satrec passes trajectory.
  assert (length trajectory = length (List.filter passes (seq 0 sampleCount)))
    as L.
  { unfold trajectory. rewrite buildTrajectory_omap.
    apply omap_length_filter. }
  split; [exact L|]. split.
  - intros E i Hi. rewrite E in L. cbn [length] in L.
    destruct (passes i) eqn:P; [|reflexivity].
    assert (In i (List.filter passes (seq 0 sampleCount))) as Hin.
    { apply filter_In. split; [apply in_seq; lia|exact P]. }
    destruct (List.filter passes (seq 0 sampleCount)); [contradiction|].
    discriminate.
  - intros F.
    assert (List.filter passes (seq 0 sampleCount) = []) as E.
    { destruct (List.filter passes (seq 0 sampleCount)) as [|i rest] eqn:E;
        [reflexivity|].
      assert (In i (List.filter passes (seq 0 sampleCount))) as Hin
        by (rewrite E; now left).
      apply filter_In in Hin as [Hin P]. apply in_seq in Hin.
      rewrite F in P by lia. discriminate. }
    rewrite E in L. now destruct trajectory.
Qed.

Lemma sampleTime_gap (start : JulianDate.t) (i j : nat) :
  (i < j)%nat -> sampleTime start i + 3600 <= sampleTime start j.
Proof.
  intros Hij. unfold sampleTime, JulianDate.addHours, JulianDate.secondsPerHour.
  assert (inject_Z (Z.of_nat i) + 1 <= inject_Z (Z.of_nat j)) as H.
  { change 1 with (inject_Z 1). rewrite <- inject_Z_plus, <- Zle_Qle. lia. }
  lra.
Qed.

Lemma epochTimes_gaps (satrec : Satrec) (start : JulianDate.t) (n i : nat) :
  StronglySorted (fun a b => a + 3600 <= b)
    (epochTimes (omap (sampleAt satrec start) (seq i n))).
Proof.
  revert i. induction n as [|n IH]; intros i; cbn [seq omap list_omap].
  - constructor.
  - destruct (sampleAt satrec start i) as [[time p]|] eqn:E.
    + cbn. constructor; [apply IH|].
      apply sampleAt_time in E. subst time.
      eapply Forall_impl; [apply epochTimes_range|].
      intros time [j [Hj [_ ->]]]. apply sampleTime_gap. lia.
    + apply IH.
Qed.

(** The epochs of a trajectory lie on the hourly grid that starts at the
    start of the window, and any two of them are at least 3600 seconds
    apart, the earlier one first. *)
Theorem epochs_on_hourly_grid (start : JulianDate.t) (tle : TleData) :
  let times := epochTimes (entityPosition (buildTrajectory start tle)) in
  Forall (fun time =>
            exists k : nat,
              (k < 4)%nat /\ time = start + inject_Z (Z.of_nat k) * 3600)
         times
  /\ StronglySorted (fun a b => a + 3600 <= b) times.
Proof.
  intros times. unfold times. rewrite buildTrajectory_omap. split.
  - eapply Forall_impl; [apply epochTimes_range|].
    intros time [j [Hj [_ ->]]]. exists j.
    split; [unfold sampleCount in Hj; lia|reflexivity].
  - apply epochTimes_gaps.
Qed.
End SampledFurther.

(** ** The effect on the element sets *)

Section EffectFurther.
Context {ext : Collaborators}.
Import Sampled.
Local Open Scope Q_scope.


End EffectFurther.

(** ** The live revision: a run of the timer callback *)

Section LiveFurther.
Context {ext : Collaborators}.

Lemma published_app {St : Type} (current : St)
    (first second : list (effect St)) :
  published current (first ++ second)
  = published (published current first) second.
Proof.
  revert current. induction first as [|[s|m] first IH]; intros current; cbn.
  - reflexivity.
  - apply IH.
  - apply IH.
Qed.

(** The callbacks of [tleData.map], all together: [null] or a satellite for
    every element set; one console error, and nothing else, for every
    [null]; one reading of the clock for every element set and one more for
    every satellite; and the satellites keep the order of the element
    sets. *)
Lemma mapM_locate_accounts (tleData : list TleData) :
  forall (w : Live.World) (located : list (option Live.Satellite))
         (w' : Live.World),
    Live.mapM Live.locate tleData w = (located, w') ->
    (length (Live.notNull located) <= length tleData)%nat
    /\ Live.effects w'
       = Live.effects w
         ++ repeat (ConsoleError "Something is wrong with the data")
                   (length tleData - length (Live.notNull located))
    /\ Live.clockReads w'
       = (Live.clockReads w + length tleData
          + length (Live.notNull located))%nat
    /\ sublist (map Live.satelliteName (Live.notNull located))
               (map name tleData).
Proof.
  induction tleData as [|tle rest IH]; intros w located w' E.
  - cbn in E. inversion E; subst. cbn.
    rewrite app_nil_r. repeat split; try lia. constructor.
  - rewrite mapM_cons in E.
    destruct (guarded
                (position
                   (propagate (twoline2satrec (line1 tle) (line2 tle))
                              (newDate (Live.clockReads w))))) as [v|] eqn:G.
    + rewrite (locate_success tle w v G) in E.
      destruct (Live.mapM Live.locate rest _) as [bs w''] eqn:R.
      inversion E; subst located w'. clear E.
      destruct (IH _ _ _ R) as [L [Eff [Reads Sub]]].
      cbn [Live.effects Live.clockReads] in Eff, Reads.
      cbn [Live.notNull omap list_omap id length map] in *.
      fold (Live.notNull bs) in *.
      split; [lia|]. split; [exact Eff|]. split; [lia|].
      cbn [Live.satelliteName]. now apply sublist_skip.
    + rewrite (locate_failure tle w G) in E.
      destruct (Live.mapM Live.locate rest _) as [bs w''] eqn:R.
      inversion E; subst located w'. clear E.
      destruct (IH _ _ _ R) as [L [Eff [Reads Sub]]].
      cbn [Live.effects Live.clockReads] in Eff, Reads.
      cbn [Live.notNull omap list_omap id length map] in *.
      fold (Live.notNull bs) in *.
      split; [lia|]. split; [|split; [lia|now apply sublist_cons]].
      rewrite Eff, <- app_assoc. f_equal.
      replace (S (length rest) - length (Live.notNull bs))%nat
        with (S (length rest - length (Live.notNull bs))) by lia.
      reflexivity.
Qed.


Lemma live_render_keys (satellites : list Live.Satellite) :
  map Scene.key (LiveView.render satellites) = seq 0 (length satellites).
Proof.
  unfold LiveView.render.
  change (map Scene.key ?l) with (Scene.key <$> l).
  rewrite fmap_imap.
  rewrite (imap_ext _ (fun j _ => j) satellites) by reflexivity.
  rewrite imap_seq_0. apply list_fmap_id.
Qed.

Lemma live_render_labels (satellites : list Live.Satellite) :
  map (fun e => Scene.text (Scene.label e)) (LiveView.render satellites)
  = map Live.satelliteName satellites.
Proof.
  unfold LiveView.render.
  change (map ?f ?l) with (f <$> l).
  rewrite fmap_imap.
  rewrite (imap_ext _ (const Live.satelliteName) satellites) by reflexivity.
  apply imap_const.
Qed.

Lemma live_render_names (satellites : list Live.Satellite) :
  map Scene.entityName (LiveView.render satellites)
  = map (fun s => Some (Live.satelliteName s)) satellites.
Proof.
  unfold LiveView.render.
  change (map ?f ?l) with (f <$> l).
  rewrite fmap_imap.
  rewrite (imap_ext _ (const (fun s => Some (Live.satelliteName s)))
             satellites) by reflexivity.
  apply imap_const.
Qed.

(** What the live revision renders after a run of the timer callback: the
    keys are the indices 0, 1, ... without repetition; the labels, which
    are also the names of the entities, are names of element sets, each
    element set used at most once and in the order of the element sets; and
    there are never more entities than element sets. *)
Theorem live_render_keeps_order_of_element_sets
    (tleData : list TleData) (w : Live.World)
    (before : list Live.Satellite) :
  let w' := snd (Live.calculateSatellitePositions tleData w) in
  let elements := LiveView.render (published before (Live.effects w')) in
  let labels := map (fun e => Scene.text (Scene.label e)) elements in
  sublist labels (map name tleData)
  /\ map Scene.entityName elements = map Some labels
  /\ (length elements <= length tleData)%nat
  /\ map Scene.key elements = seq 0 (length elements)
  /\ NoDup (map Scene.key elements).
Proof.
  intros w' elements labels. subst labels elements w'.
  unfold Live.calculateSatellitePositions, Live.bind.
  destruct (Live.mapM Live.locate tleData w) as [located w1] eqn:E.
  destruct (mapM_locate_accounts tleData w located w1 E) as [L [_ [_ Sub]]].
  unfold Live.setSatellites, Live.emit. cbn [snd Live.effects].
  rewrite published_app. cbn [published].
  assert (map Scene.key (LiveView.render (Live.notNull located))
          = seq 0 (length (LiveView.render (Live.notNull located)))) as K.
  { rewrite live_render_keys. unfold LiveView.render.
    now rewrite length_imap. }
  rewrite live_render_labels, live_render_names.
  split; [exact Sub|]. split; [now rewrite map_map|].
  split; [unfold LiveView.render; now rewrite length_imap|].
  split; [exact K|]. rewrite K. apply NoDup_ListNoDup, seq_NoDup.
Qed.

Lemma syncAll_latestSuccess (qs : list LiveData.QueryResult) :
  forall tleData : list TleData,
    LiveData.syncAll qs tleData
    = match LiveData.latestSuccess qs with
      | Some data => data
      | None => tleData
      end.
Proof.
  unfold LiveData.syncAll.
  induction qs as [|q rest IH]; intros tleData; cbn [fold_left].
  - reflexivity.
  - rewrite IH. cbn [LiveData.latestSuccess].
    destruct (LiveData.latestSuccess rest); [reflexivity|].
    now destruct q.
Qed.

(** The element sets of the live revision after any reports of the query:
    those of the latest report that was a success. While there has been no
    success they are the empty array, and a run of the timer callback then
    reads no clock, writes nothing to the console and publishes the empty
    array. *)
Theorem live_element_sets_are_latest_success
    (qs : list LiveData.QueryResult) (w : Live.World) :
  let tleData := LiveData.syncAll qs LiveData.initialTleData in
  match LiveData.latestSuccess qs with
  | Some data => tleData = data
  | None =>
      tleData = []
      /\ Live.calculateSatellitePositions tleData w
         = (tt, Live.mkWorld (Live.clockReads w)
                  (Live.effects w ++ [SetState []]))
  end.
Proof.
  intros tleData. subst tleData. rewrite syncAll_latestSuccess.
  destruct (LiveData.latestSuccess qs); [reflexivity|].
  split; reflexivity.
Qed.
End LiveFurther.

(** ** The frame rate meter *)

Section FrameRate.
Import Fps.
Local Open Scope Q_scope.

Lemma round_bounds (x : Q) (n : Z) :
  0 <= x -> x <= inject_Z n -> (0 <= round x <= n)%Z.
Proof.
  intros H0 Hn. unfold round. split.
  - change 0%Z with (Qfloor 0). apply Qfloor_resp_le. lra.
  - pose proof (Qfloor_le (x + (1 # 2))) as F.
    assert (inject_Z (Qfloor (x + (1 # 2))) < inject_Z (n + 1)) as L
      by (rewrite inject_Z_plus; change (inject_Z 1) with 1; lra).
    rewrite <- Zlt_Qlt in L. lia.
Qed.


(** A value handed to [setFps] is an integer between 0 and the number of
    frames counted since the latest report, the present one included,
    whatever the instants are. *)
Theorem fps_report_within_frame_count (now : Q) (id : nat) (m : Meter) :
  Forall (fun v => (0 <= v <= Z.of_nat (S (frameCount m)))%Z)
         (setStates (snd (calculateFps now id m))).
Proof.
  unfold calculateFps.
  destruct (Qle_bool 1000 (now - lastFpsUpdate m)) eqn:G;
    cbn [snd setStates omap list_omap]; [|constructor].
  apply Qle_bool_iff in G. constructor; [|constructor].
  set (count := inject_Z (Z.of_nat (S (frameCount m)))).
  assert (0 <= count) as C0
    by (unfold count; change 0 with (inject_Z 0); rewrite <- Zle_Qle; lia).
  set (elapsed := now - lastFpsUpdate m) in *.
  apply round_bounds.
  - apply Qle_shift_div_l; [lra|]. lra.
  - fold count. apply Qle_shift_div_r; [lra|].
    assert (0 <= count * (elapsed - 1000))
      by (apply Qmult_le_0_compat; lra).
    lra.
Qed.





End FrameRate.


Section FrameRequests.
Import Fps.
Local Open Scope Q_scope.

Lemma cancel_only (id : nat) : cancel id [id] = [].
Proof. unfold cancel. cbn. now rewrite Nat.eqb_refl. Qed.

Lemma frame_without_meter (now : Q) (id : nat) (c : Component) :
  meter c = None -> frame now id c = c.
Proof. intros M. unfold frame. now rewrite M. Qed.

Lemma frame_without_request (now : Q) (id : nat) (c : Component) :
  requests c = [] -> frame now id c = c.
Proof.
  intros R. unfold frame. destruct (meter c); [|reflexivity].
  now rewrite R.
Qed.

Lemma frame_oneRequest (now : Q) (id : nat) (c : Component) :
  oneRequest c -> oneRequest (frame now id c).
Proof.
  unfold oneRequest. intros I. destruct (meter c) as [m|] eqn:M.
  - unfold frame. rewrite M, I. cbn [existsb]. rewrite Nat.eqb_refl.
    cbn [orb]. rewrite cancel_only. unfold calculateFps.
    destruct (Qle_bool 1000 (now - lastFpsUpdate m)); reflexivity.
  - rewrite (frame_without_meter now id c M), M. exact I.
Qed.

Lemma frames_oneRequest (events : list (Q * nat)) :
  forall c : Component, oneRequest c -> oneRequest (frames events c).
Proof.
  unfold frames.
  induction events as [|[now id] rest IH]; intros c I; cbn [fold_left].
  - exact I.
  - apply IH, frame_oneRequest, I.
Qed.

Lemma frames_without_request (events : list (Q * nat)) (c : Component) :
  requests c = [] -> frames events c = c.
Proof.
  intros R. unfold frames.
  induction events as [|[now id] rest IH]; cbn [fold_left]; [reflexivity|].
  cbn [fst snd]. now rewrite (frame_without_request now id c R).
Qed.

Lemma frames_keep_meter (events : list (Q * nat)) :
  forall c : Component,
    meter c <> None -> meter (frames events c) <> None.
Proof.
  unfold frames.
  induction events as [|[now id] rest IH]; intros c Hc; cbn [fold_left];
    [exact Hc|].
  apply IH. cbn [fst snd]. unfold frame.
  destruct (meter c) as [m|] eqn:M; [|contradiction].
  destruct (existsb (Nat.eqb (animationFrameId m)) (requests c));
    [|now rewrite M].
  unfold calculateFps.
  now destruct (Qle_bool 1000 (now - lastFpsUpdate m)).
Qed.

(** The requests for an animation frame, from the mounting on and through
    any frames: the host never holds more than one request of the meter;
    the cleanup leaves none, and after it no frame changes anything, so
    [calculateFps] never runs again; and if the document was hidden when
    the component mounted, no frame is ever requested and the state stays
    0, whatever happens later. *)
Theorem fps_requests_are_cancelled
    (visibilityState : VisibilityState) (now : Q) (id : nat)
    (events later : list (Q * nat)) :
  let c := frames events (mount visibilityState now id) in
  (length (requests c) <= 1)%nat
  /\ requests (unmount c) = []
  /\ frames later (unmount c) = unmount c
  /\ match visibilityState with
     | Hidden => c = mkComponent 0 None []
     | Visible =>
         exists m : Meter, meter c = Some m /\ requests c = [animationFrameId m]
     end.
Proof.
  intros c.
  assert (oneRequest (mount visibilityState now id)) as I0
    by (destruct visibilityState; cbn; auto).
  pose proof (frames_oneRequest events _ I0) as I. fold c in I.
  unfold oneRequest in I.
  assert (requests (unmount c) = []) as U.
  { unfold unmount. destruct (meter c) as [m|] eqn:M.
    - cbn [requests]. rewrite I. apply cancel_only.
    - apply I. }
  split; [|split; [exact U|split; [exact (frames_without_request _ _ U)|]]].
  - destruct (meter c) as [m|].
    + rewrite I. cbn. lia.
    + destruct I as [-> _]. cbn. lia.
  - destruct visibilityState.
    + destruct (meter c) as [m|] eqn:M; [eauto|].
      exfalso. revert M. subst c. apply frames_keep_meter. discriminate.
    + subst c. now apply frames_without_request.
Qed.
End FrameRequests.
